(** * Interaction script of the portfolio page: a shallow embedding

    The script [assets/js/script.js] is a set of routines that query the
    document, mutate classes, attributes and inline styles of elements and
    register event listeners.  The document, an HTML document in no-quirks
    mode, is modelled as the list of its elements in document order; a node
    is an index in that list.  Calls of browser methods whose effect lies
    outside of the modelled document ([focus], [scrollIntoView], [click],
    [preventDefault], timers) are recorded in a trace.  Strings are
    sequences of code units.

    The two statements the script runs while it loads (the logging of
    contact links and the scroll fallback for browsers without smooth
    scrolling) write to the console and scroll the window; they change
    nothing of the document and are not part of the model. *)

From Stdlib Require Import QArith Qabs Ascii.
From stdpp Require Import base relations list strings.

Local Open Scope stdpp_scope.

(** ** Strings *)

(** [s.substring(1)]: the string without its first code unit. *)
Definition substring1 (s : string) : string :=
  match s with
  | EmptyString => EmptyString
  | String _ r => r
  end.

(** Case folding of a code unit as the [i] flag of a regular expression sees
    it for a pattern made of ASCII letters: only [A]..[Z] fold. *)
Definition fold_case (c : ascii) : ascii :=
  let n := nat_of_ascii c in
  if bool_decide (65 ≤ n ≤ 90)%nat then ascii_of_nat (n + 32) else c.

Fixpoint starts_with_ci (pat s : string) : bool :=
  match pat, s with
  | EmptyString, _ => true
  | String _ _, EmptyString => false
  | String a pat', String b s' =>
      bool_decide (fold_case a = fold_case b) && starts_with_ci pat' s'
  end.

(** [/pat/i.test(s)] for a literal pattern: some position of [s] starts an
    occurrence of [pat], compared up to case. *)
Fixpoint regex_test_ci (pat s : string) : bool :=
  starts_with_ci pat s ||
  match s with
  | EmptyString => false
  | String _ s' => regex_test_ci pat s'
  end.

(** [s.startsWith(p)] as used by the attribute selector [[a^="p"]]. *)
Fixpoint starts_with (p s : string) : bool :=
  match p, s with
  | EmptyString, _ => true
  | String _ _, EmptyString => false
  | String a p', String b s' => bool_decide (a = b) && starts_with p' s'
  end.

(** [String(b)] of a boolean, the conversion [setAttribute] applies. *)
Definition string_of_bool (b : bool) : string :=
  if b then "true" else "false".

(** ** Named lists: attributes and inline style declarations *)

Module Assoc.

Abbreviation t := (list (string * string)) (only parsing).

Fixpoint get (k : string) (l : t) : option string :=
  match l with
  | [] => None
  | (k', v) :: r => if decide (k' = k) then Some v else get k r
  end.

(** Replaces the value in place when the name exists, appends otherwise. *)
Fixpoint set (k v : string) (l : t) : t :=
  match l with
  | [] => [(k, v)]
  | (k', v') :: r =>
      if decide (k' = k) then (k, v) :: r else (k', v') :: set k v r
  end.

Definition remove (k : string) (l : t) : t :=
  filter (λ kv, kv.1 ≠ k) l.

End Assoc.

(** ** The document *)

Abbreviation node := nat (only parsing).

Record element := mkElement {
  tagName : string;                 (* local name, lower case *)
  parentNode : option node;
  classList : list string;
  attributes : Assoc.t;             (* every attribute but class and style *)
  style : Assoc.t;                  (* inline declarations *)
  textContent : string
}.

(** Calls that leave the modelled document as it is.  [ScrollIntoView n] is
    [n.scrollIntoView({ behavior: 'smooth' })], [RemoveTabindexIn n ms] is
    [setTimeout(() => n.removeAttribute('tabindex'), ms)]. *)
Inductive call :=
  | PreventDefault
  | Focus (n : node)
  | ScrollIntoView (n : node)
  | Click (n : node)
  | RemoveTabindexIn (n : node) (ms : nat).

Record page := mkPage {
  elements : list element;
  hasIntersectionObserver : bool;   (* 'IntersectionObserver' in window *)
  revealObserved : list node;       (* targets of quickReveal's observer *)
  calls : list call                 (* oldest first *)
}.

Definition set_elements (els : list element) (p : page) : page :=
  mkPage els (hasIntersectionObserver p) (revealObserved p) (calls p).

Definition set_revealObserved (o : list node) (p : page) : page :=
  mkPage (elements p) (hasIntersectionObserver p) o (calls p).

Definition record (c : call) (p : page) : page :=
  mkPage (elements p) (hasIntersectionObserver p) (revealObserved p)
         (calls p ++ [c]).

(** Applies [f] to the element [n] refers to. *)
Definition update (n : node) (f : element → element) (p : page) : page :=
  set_elements (alter f n (elements p)) p.

(** *** Element operations *)

Definition set_classList (cl : list string) (e : element) : element :=
  mkElement (tagName e) (parentNode e) cl (attributes e) (style e)
            (textContent e).

Definition set_attributes (a : Assoc.t) (e : element) : element :=
  mkElement (tagName e) (parentNode e) (classList e) a (style e)
            (textContent e).

Definition set_style (s : Assoc.t) (e : element) : element :=
  mkElement (tagName e) (parentNode e) (classList e) (attributes e) s
            (textContent e).

Definition set_textContent (t : string) (e : element) : element :=
  mkElement (tagName e) (parentNode e) (classList e) (attributes e) (style e)
            t.

Definition class_contains (c : string) (e : element) : bool :=
  bool_decide (c ∈ classList e).

Definition class_add (c : string) (e : element) : element :=
  if class_contains c e then e else set_classList (classList e ++ [c]) e.

Definition class_remove (c : string) (e : element) : element :=
  set_classList (filter (λ c', c' ≠ c) (classList e)) e.

(** [classList.toggle(c)]: the element afterwards; the value returned is the
    negation of [class_contains c] before. *)
Definition class_toggle (c : string) (e : element) : element :=
  if class_contains c e then class_remove c e else class_add c e.

Definition getAttribute (a : string) (e : element) : option string :=
  Assoc.get a (attributes e).

Definition setAttribute (a v : string) (e : element) : element :=
  set_attributes (Assoc.set a v (attributes e)) e.

Definition removeAttribute (a : string) (e : element) : element :=
  set_attributes (Assoc.remove a (attributes e)) e.

Definition setStyle (prop v : string) (e : element) : element :=
  set_style (Assoc.set prop v (style e)) e.

Definition getStyle (prop : string) (e : element) : option string :=
  Assoc.get prop (style e).

(** Reflected properties: [el.id] and [a.rel] read the attribute, the empty
    string when it is absent. *)
Definition id_of (e : element) : string := default "" (getAttribute "id" e).
Definition rel_of (e : element) : string := default "" (getAttribute "rel" e).

(** *** Reading the page *)

Definition hasClass (c : string) (n : node) (p : page) : bool :=
  from_option (class_contains c) false (elements p !! n).

Definition attr (a : string) (n : node) (p : page) : option string :=
  elements p !! n ≫= getAttribute a.

Definition styleOf (prop : string) (n : node) (p : page) : option string :=
  elements p !! n ≫= getStyle prop.

(** [a.contains(b)]: [a] is [b] or an ancestor of [b].  A parent precedes
    its children in document order, so [b] steps bound the climb. *)
Fixpoint climbs_to (fuel : nat) (els : list element) (a b : node) : bool :=
  bool_decide (a = b) ||
  match fuel with
  | O => false
  | S fuel' =>
      match els !! b ≫= parentNode with
      | Some b' => climbs_to fuel' els a b'
      | None => false
      end
  end.

Definition contains (a b : node) (p : page) : bool :=
  climbs_to b (elements p) a b.

(** ** Selectors *)

Inductive simple_selector :=
  | Tag (t : string)                      (* t *)
  | Id (i : string)                       (* #i *)
  | Class (c : string)                    (* .c *)
  | AttrEq (a v : string)                 (* [a="v"] *)
  | AttrPrefix (a v : string).            (* [a^="v"] *)

(** A compound selector is a conjunction, a selector list a disjunction. *)
Definition compound := list simple_selector.
Definition selector := list compound.

(** In an HTML document the selector [[a="v"]] compares the value up to
    ASCII case for the attributes of this list, and exactly for the others. *)
Definition case_insensitive_attributes : list string :=
  ["accept"; "accept-charset"; "align"; "alink"; "axis"; "bgcolor";
   "charset"; "checked"; "clear"; "codetype"; "color"; "compact"; "declare";
   "defer"; "dir"; "direction"; "disabled"; "enctype"; "face"; "frame";
   "hreflang"; "http-equiv"; "lang"; "language"; "link"; "media"; "method";
   "multiple"; "nohref"; "noresize"; "noshade"; "nowrap"; "readonly"; "rel";
   "rev"; "rules"; "scope"; "scrolling"; "selected"; "shape"; "target";
   "text"; "type"; "valign"; "valuetype"; "vlink"].

Fixpoint lower (s : string) : string :=
  match s with
  | EmptyString => EmptyString
  | String c r => String (fold_case c) (lower r)
  end.

Definition value_matches (a v : string) (actual : option string) : bool :=
  match actual with
  | Some w =>
      if bool_decide (a ∈ case_insensitive_attributes)
      then bool_decide (lower w = lower v)
      else bool_decide (w = v)
  | None => false
  end.

Definition matches_simple (e : element) (s : simple_selector) : bool :=
  match s with
  | Tag t => bool_decide (tagName e = t)
  | Id i => bool_decide (getAttribute "id" e = Some i)
  | Class c => class_contains c e
  | AttrEq a v => value_matches a v (getAttribute a e)
  | AttrPrefix a v => from_option (starts_with v) false (getAttribute a e)
  end.

Definition matches (sel : selector) (e : element) : bool :=
  existsb (λ c, forallb (matches_simple e) c) sel.

(** Nodes of [els] that satisfy [f], in document order; [i] is the index of
    the head of [els]. *)
Fixpoint select_from (i : node) (f : element → bool) (els : list element)
  : list node :=
  match els with
  | [] => []
  | e :: r => if f e then i :: select_from (S i) f r else select_from (S i) f r
  end.

(** [qsa]: [Array.from(document.querySelectorAll(s))]. *)
Definition qsa (sel : selector) (p : page) : list node :=
  select_from 0 (matches sel) (elements p).

(** [qs]: [document.querySelector(s)], the first match or null. *)
Definition qs (sel : selector) (p : page) : option node :=
  head (qsa sel p).

(** [arr.forEach(n => ...)] for a body that updates the page. *)
Definition forEach (ns : list node) (body : node → page → page) (p : page)
  : page :=
  foldl (λ q n, body n q) p ns.

(** ** Events, listeners and completions *)

Record event := mkEvent {
  target : node;          (* e.target *)
  key : string            (* e.key, for keyboard events *)
}.

Inductive exn := TypeError | SyntaxError | ReferenceError.

(** How a routine or a listener ends. *)
Inductive completion := Normal | Throw (e : exn).

Inductive eventTarget := Document | Window | Element (n : node).

(** The closures the script passes to [addEventListener], with the variables
    each of them captures. *)
Inductive listener :=
  | ToggleClick (toggle list : node)
  | ListClick (toggle list : node)
  | OutsideClick (toggle list : node)
  | EscapeKeydown (toggle list : node)
  | SkipLinkClick (skipLink : node)
  | NavLinkClick (link : node)
  | CardKeydown (card : node).

Record registration := mkRegistration {
  on : eventTarget;
  type : string;
  callback : listener
}.

(** ** setYear *)

Definition year_sel : selector := [[Id "year"]].

(** [year] is [new Date().getFullYear()], already converted to a string. *)
Definition setYear (year : string) (p : page) : page :=
  match qs year_sel p with
  | Some y => update y (set_textContent year) p
  | None => p
  end.

(** ** setupNavToggle *)

Definition nav_toggle_sel : selector := [[Class "nav__toggle"]].
Definition nav_list_sel : selector := [[Class "nav__list"]].

Definition onToggleClick (toggle list : node) (p : page) : page :=
  let open := negb (hasClass "open" list p) in
  let p := update list (class_toggle "open") p in
  update toggle (setAttribute "aria-expanded" (string_of_bool open)) p.

Definition closeNav (toggle list : node) (p : page) : page :=
  let p := update list (class_remove "open") p in
  update toggle (setAttribute "aria-expanded" "false") p.

Definition onListClick (toggle list : node) (e : event) (p : page) : page :=
  if hasClass "nav__link" (target e) p then closeNav toggle list p else p.

Definition onOutsideClick (toggle list : node) (e : event) (p : page) : page :=
  if negb (contains toggle (target e) p) && negb (contains list (target e) p)
  then closeNav toggle list p
  else p.

Definition onEscapeKeydown (toggle list : node) (e : event) (p : page) : page :=
  if bool_decide (key e = "Escape") && hasClass "open" list p
  then record (Focus toggle) (closeNav toggle list p)
  else p.

Definition setupNavToggle (p : page) : list registration :=
  match qs nav_toggle_sel p, qs nav_list_sel p with
  | Some toggle, Some list =>
      [ mkRegistration (Element toggle) "click" (ToggleClick toggle list);
        mkRegistration (Element list) "click" (ListClick toggle list);
        mkRegistration Document "click" (OutsideClick toggle list);
        mkRegistration Document "keydown" (EscapeKeydown toggle list) ]
  | _, _ => []
  end.

(** ** setupActiveLinkObserver *)

Definition hash_links_sel : selector :=
  [[Class "nav__link"; AttrPrefix "href" "#"]].

Definition sectionIds : list string :=
  ["hero"; "about"; "experience"; "skills"; "certs"; "contact"].

(** [sectionIds.map(id => qs(`#${id}`)).filter(Boolean)] *)
Definition sections (p : page) : list node :=
  omap (λ id, qs [[Id id]] p) sectionIds.

Definition clearActiveStates (links : list node) (p : page) : page :=
  forEach links (λ link, update link (class_remove "active")) p.

(** The selector [.nav__link[href="#${sectionId}"]]; the callers pass the id
    of one of [sections], a member of [sectionIds]. *)
Definition link_of_section_sel (sectionId : string) : selector :=
  [[Class "nav__link"; AttrEq "href" ("#" +:+ sectionId)]].

Definition setActiveSection (links : list node) (sectionId : string)
    (p : page) : page :=
  let p := clearActiveStates links p in
  match qs (link_of_section_sel sectionId) p with
  | Some activeLink => update activeLink (class_add "active") p
  | None => p
  end.

(** An [IntersectionObserverEntry]. *)
Record entry := mkEntry {
  entryTarget : node;
  isIntersecting : bool;
  intersectionRatio : Q
}.

(** What the callbacks read of the layout; lengths are taken as rationals. *)
Record layout := mkLayout {
  scrollY : Q;
  rectTop : node → Q;           (* el.getBoundingClientRect().top *)
  offsetHeight : node → Q
}.

Definition idOf (n : node) (p : page) : string :=
  from_option id_of "" (elements p !! n).

(** [arr.sort((a, b) => b.intersectionRatio - a.intersectionRatio)]: stable,
    larger ratios first. *)
Fixpoint insertByRatio (x : entry) (l : list entry) : list entry :=
  match l with
  | [] => [x]
  | y :: r =>
      if Qlt_le_dec (intersectionRatio x) (intersectionRatio y)
      then y :: insertByRatio x r
      else x :: l
  end.

Definition sortByRatio (l : list entry) : list entry :=
  foldr insertByRatio [] l.

Definition site_header_sel : selector := [[Class "site-header"]].

(** [qs('.site-header')?.offsetHeight || dflt] *)
Definition headerHeight (dflt : Q) (v : layout) (p : page) : Q :=
  match qs site_header_sel p with
  | Some h => if Qeq_bool (offsetHeight v h) 0 then dflt else offsetHeight v h
  | None => dflt
  end.

(** The section the observer callback falls back to when no entry
    intersects. *)
Definition currentSection (secs : list node) (v : layout) (p : page)
  : string :=
  let hh := headerHeight 80 v p in
  foldl (λ cur section,
           let sectionTop := (rectTop v section + scrollY v - hh)%Q in
           if Qle_bool (sectionTop - 100) (scrollY v)
           then idOf section p else cur)
        "hero" secs.

Definition observerCallback (links secs : list node) (entries : list entry)
    (v : layout) (p : page) : page :=
  let visibleSections := sortByRatio (filter (λ e, isIntersecting e) entries) in
  match visibleSections with
  | mostVisible :: _ =>
      setActiveSection links (idOf (entryTarget mostVisible) p) p
  | [] => setActiveSection links (currentSection secs v p) p
  end.

(** The section the animation-frame callback of [updateActiveOnScroll]
    selects; [None] as the running minimum stands for [Infinity]. *)
Definition nearestSection (secs : list node) (v : layout) (p : page)
  : string :=
  let hh := headerHeight 80 v p in
  fst (foldl (λ '(activeSection, minDistance) section,
                let sectionTop := (rectTop v section + scrollY v)%Q in
                let distance := Qabs (scrollY v + hh + 50 - sectionTop) in
                let closer := match minDistance with
                              | Some m => if Qlt_le_dec distance m
                                          then true else false
                              | None => true
                              end in
                if closer && Qle_bool (rectTop v section) (hh + 100)
                then (idOf section p, Some distance)
                else (activeSection, minDistance))
             ("hero", None) secs).

(** The callback [updateActiveOnScroll] hands to [requestAnimationFrame].
    The throttling around it ([ticking], [scrollTimeout]) decides when it
    runs, not what it does. *)
Definition scrollFrame (links secs : list node) (v : layout) (p : page)
  : page :=
  setActiveSection links (nearestSection secs v p) p.

(** The routine installs its callbacks unless there is no section or no
    link; it constructs an [IntersectionObserver] without testing for it. *)
Definition setupActiveLinkObserver (p : page)
  : option (list node * list node) * completion :=
  let links := qsa hash_links_sel p in
  let secs := sections p in
  if bool_decide (secs = []) || bool_decide (links = []) then (None, Normal)
  else if hasIntersectionObserver p then (Some (links, secs), Normal)
  else (None, Throw ReferenceError).

(** ** quickReveal *)

Definition reveal_items_sel : selector :=
  [[Class "section"]; [Class "exp-card"]; [Class "feature"];
   [Class "skill-block"]; [Class "cert-card"]; [Class "profile__contact"];
   [Class "profile__panel"]; [Class "metric"]].

Definition showNow (e : element) : element :=
  setStyle "transform" "none" (setStyle "opacity" "1" e).

Definition hide (e : element) : element :=
  setStyle "transition" "opacity .6s ease, transform .6s ease"
    (setStyle "transform" "translateY(20px)" (setStyle "opacity" "0" e)).

Definition reveal (e : element) : element :=
  setStyle "transform" "translateY(0)" (setStyle "opacity" "1" e).

(** [io.observe(el)] and [io.unobserve(el)] on the observer of
    [quickReveal]. *)
Definition observe (el : node) (p : page) : page :=
  if bool_decide (el ∈ revealObserved p) then p
  else set_revealObserved (revealObserved p ++ [el]) p.

Definition unobserve (el : node) (p : page) : page :=
  set_revealObserved (filter (λ n, n ≠ el) (revealObserved p)) p.

Definition quickReveal (p : page) : page :=
  let items := qsa reveal_items_sel p in
  if negb (hasIntersectionObserver p)
  then forEach items (λ el, update el showNow) p
  else
    let p := forEach items (λ el, update el hide) p in
    forEach items observe p.

(** The options the observer is created with: threshold and root margin. *)
Definition revealObserverOptions : Q * string := (1 # 10, "0px 0px -10% 0px").

(** The callback of the observer, run on a batch of entries; [revealStep]
    is the body of its [entries.forEach]. *)
Definition revealStep (q : page) (en : entry) : page :=
  if isIntersecting en
  then unobserve (entryTarget en) (update (entryTarget en) reveal q)
  else q.

Definition revealCallback (entries : list entry) (p : page) : page :=
  foldl revealStep p entries.

(** ** secureExternalLinks *)

Definition blank_anchors_sel : selector := [[Tag "a"; AttrEq "target" "_blank"]].

Definition harden (a : element) : element :=
  if negb (regex_test_ci "noopener" (rel_of a))
  then setAttribute "rel"
         ((if bool_decide (rel_of a = "") then "" else rel_of a +:+ " ")
          +:+ "noopener") a
  else a.

Definition secureExternalLinks (p : page) : page :=
  forEach (qsa blank_anchors_sel p) (λ a, update a harden) p.

(** ** enhanceAccessibility *)

Definition skip_link_sel : selector := [[Class "skip-link"]].
Definition nav_link_sel : selector := [[Class "nav__link"]].
Definition cards_sel : selector :=
  [[Class "exp-card"]; [Class "feature"]; [Class "skill-block"];
   [Class "cert-card"]].

Definition onCardKeydown (card : node) (e : event) (p : page) : page :=
  if bool_decide (key e = "Enter") || bool_decide (key e = " ")
  then record (Click card) p
  else p.

(** The callback of the timer the nav-link listener starts. *)
Definition removeTabindex (n : node) (p : page) : page :=
  update n (removeAttribute "tabindex") p.

Definition enhanceAccessibility (p : page) : page * list registration :=
  let skip :=
    match qs skip_link_sel p with
    | Some skipLink =>
        [mkRegistration (Element skipLink) "click" (SkipLinkClick skipLink)]
    | None => []
    end in
  let links :=
    (λ link, mkRegistration (Element link) "click" (NavLinkClick link))
      <$> qsa nav_link_sel p in
  let cards := qsa cards_sel p in
  let p := forEach cards (λ card, update card (setAttribute "tabindex" "0")) p in
  (p, skip ++ links ++
      ((λ card, mkRegistration (Element card) "keydown" (CardKeydown card))
         <$> cards)).

(** The listeners that hand a string of the document to [querySelector]
    depend on how the browser reads that string: the selector it denotes, or
    [None] when it is not a selector and [querySelector] throws. *)
Section SelectorEngine.

Variable parseSelector : string → option selector.

Definition onSkipLinkClick (skipLink : node) (p : page)
  : page * completion :=
  let p := record PreventDefault p in
  (* a null argument is converted to the string "null" *)
  let href := default "null" (attr "href" skipLink p) in
  match parseSelector href with
  | None => (p, Throw SyntaxError)
  | Some sel =>
      match qs sel p with
      | Some target =>
          let p := record (Focus target) p in
          (record (ScrollIntoView target) p, Normal)
      | None => (p, Normal)
      end
  end.

Definition onNavLinkClick (link : node) (p : page) : page * completion :=
  let p := record PreventDefault p in
  match attr "href" link p with
  | None => (p, Throw TypeError)        (* null.substring *)
  | Some href =>
      let targetId := substring1 href in
      match parseSelector ("#" +:+ targetId) with
      | None => (p, Throw SyntaxError)
      | Some sel =>
          match qs sel p with
          | Some target =>
              let p := forEach (qsa nav_link_sel p)
                         (λ l, update l (class_remove "active")) p in
              let p := update link (class_add "active") p in
              let p := record (ScrollIntoView target) p in
              let p := update target (setAttribute "tabindex" "-1") p in
              let p := record (Focus target) p in
              (record (RemoveTabindexIn target 1000) p, Normal)
          | None => (p, Normal)
          end
      end
  end.

(** Running a registered listener on an event. *)
Definition handle (l : listener) (e : event) (p : page)
  : page * completion :=
  match l with
  | ToggleClick toggle list => (onToggleClick toggle list p, Normal)
  | ListClick toggle list => (onListClick toggle list e p, Normal)
  | OutsideClick toggle list => (onOutsideClick toggle list e p, Normal)
  | EscapeKeydown toggle list => (onEscapeKeydown toggle list e p, Normal)
  | SkipLinkClick skipLink => onSkipLinkClick skipLink p
  | NavLinkClick link => onNavLinkClick link p
  | CardKeydown card => (onCardKeydown card e p, Normal)
  end.

End SelectorEngine.

(** ** init *)

Record installed := mkInstalled {
  listeners : list registration;
  scrollSpy : option (list node * list node)   (* links and sections *)
}.

Definition init (year : string) (p : page) : page * installed * completion :=
  let p := setYear year p in
  let nav := setupNavToggle p in
  match setupActiveLinkObserver p with
  | (_, Throw x) => (p, mkInstalled nav None, Throw x)
  | (spy, Normal) =>
      let p := quickReveal p in
      let p := secureExternalLinks p in
      let '(p, acc) := enhanceAccessibility p in
      (p, mkInstalled (nav ++ acc) spy, Normal)
  end.

(** ** Steps of the page once [init] has run *)

Section Steps.

Variable parseSelector : string → option selector.

(** One of the installed listeners or callbacks runs, or the timer of the
    nav-link listener fires; the browser chooses the event, the entries and
    the layout. *)
Inductive step (inst : installed) (p : page) : page → Prop :=
  | step_listener r e :
      r ∈ listeners inst →
      step inst p (handle parseSelector (callback r) e p).1
  | step_observer links secs entries v :
      scrollSpy inst = Some (links, secs) →
      step inst p (observerCallback links secs entries v p)
  | step_scroll links secs v :
      scrollSpy inst = Some (links, secs) →
      step inst p (scrollFrame links secs v p)
  | step_reveal entries :
      step inst p (revealCallback entries p)
  | step_timer n :
      step inst p (removeTabindex n p).

End Steps.

(** ** A selector engine for examples

    It reads [#ident] and [ident], for identifiers made of ASCII letters,
    digits, [-] and [_] that start with a letter or [_], and rejects every
    other string. *)

Definition is_letter (c : ascii) : bool :=
  let n := nat_of_ascii c in
  bool_decide (65 ≤ n ≤ 90)%nat || bool_decide (97 ≤ n ≤ 122)%nat.

Definition is_ident_char (c : ascii) : bool :=
  let n := nat_of_ascii c in
  is_letter c || bool_decide (48 ≤ n ≤ 57)%nat
  || bool_decide (n = 45)%nat || bool_decide (n = 95)%nat.

Fixpoint all_chars (f : ascii → bool) (s : string) : bool :=
  match s with
  | EmptyString => true
  | String c r => f c && all_chars f r
  end.

Definition is_ident (s : string) : bool :=
  match s with
  | EmptyString => false
  | String c r =>
      (is_letter c || bool_decide (nat_of_ascii c = 95)%nat)
      && all_chars is_ident_char r
  end.

Definition identEngine (s : string) : option selector :=
  match s with
  | EmptyString => None
  | String c r =>
      if bool_decide (nat_of_ascii c = 35)%nat
      then (if is_ident r then Some [[Id r]] else None)
      else (if is_ident s then Some [[Tag s]] else None)
  end.

(** ** Example documents *)

Definition elem (tag : string) (parent : option node) (classes : list string)
    (attrs : Assoc.t) : element :=
  mkElement tag parent classes attrs [] "".

Definition pageOf (els : list element) : page := mkPage els true [] [].

(** A page with every element the script looks for. *)
Definition samplePage : page := pageOf
  [ elem "button" None ["nav__toggle"] [("aria-expanded", "false")];
    elem "ul" None ["nav__list"] [];
    elem "a" (Some 1) ["nav__link"] [("href", "#about")];
    elem "a" (Some 1) ["nav__link"; "active"] [("href", "#contact")];
    elem "a" None ["skip-link"] [("href", "#about")];
    elem "section" None ["section"] [("id", "about")];
    elem "section" None ["section"] [("id", "contact")];
    elem "div" (Some 5) ["exp-card"] [];
    elem "a" (Some 6) [] [("target", "_blank"); ("rel", "nofollow")];
    elem "a" (Some 6) [] [("target", "_blank")] ].


(** The markup announces an expanded navigation whose list is closed. *)
Definition staleAriaPage : page := pageOf
  [ elem "button" None ["nav__toggle"] [("aria-expanded", "true")];
    elem "ul" None ["nav__list"] [];
    elem "main" None [] [] ].

(** A nav link without [href]. *)
Definition noHrefPage : page := pageOf
  [ elem "ul" None ["nav__list"] [];
    elem "a" (Some 0) ["nav__link"] [] ].

(** A nav link whose [href] is a lone [#]. *)
Definition bareHashPage : page := pageOf
  [ elem "a" None ["nav__link"] [("href", "#")] ].

(** A browser without [IntersectionObserver] shows a page with a section
    and a link to it. *)
Definition noObserverPage : page :=
  mkPage [ elem "a" None ["nav__link"] [("href", "#about")];
           elem "section" None ["section"] [("id", "about")] ]
         false [] [].

Definition flatLayout : layout := mkLayout 0 (λ _, 0%Q) (λ _, 0%Q).

(** ** Properties the statements below speak of *)

(** [aria-expanded] of the toggle says ['true'] exactly when the list is
    open. *)
Definition aria_matches_open (toggle list : node) (p : page) : Prop :=
  attr "aria-expanded" toggle p = Some "true" ↔ hasClass "open" list p = true.

(** The batch [entries] has an intersecting entry for [n]. *)
Definition reveals (n : node) (entries : list entry) : bool :=
  existsb (λ en, isIntersecting en && bool_decide (entryTarget en = n)) entries.

(** The inline style of [n] is the one the callback of [quickReveal]
    writes. *)
Definition revealed (n : node) (p : page) : Prop :=
  styleOf "opacity" n p = Some "1"
  ∧ styleOf "transform" n p = Some "translateY(0)".

(** A sequence of batches the browser can deliver from [p] on: it computes
    entries for the targets the observer observes at that time. *)
Fixpoint deliverable (p : page) (batches : list (list entry)) : Prop :=
  match batches with
  | [] => True
  | b :: bs =>
      Forall (λ en, entryTarget en ∈ revealObserved p) b
      ∧ deliverable (revealCallback b p) bs
  end.

(** The nav links that carry [active], and those among the links the
    scroll spy manages. *)
Definition active_nav_links_sel : selector :=
  [[Class "nav__link"; Class "active"]].
Definition active_hash_links_sel : selector :=
  [[Class "nav__link"; AttrPrefix "href" "#"; Class "active"]].



(** What makes an element one of the nav links, and one of the marked
    ones. *)
Definition linkShape (e : element) : bool * option string :=
  (class_contains "nav__link" e, getAttribute "href" e).

Definition markShape (e : element) : (bool * option string) * bool :=
  (linkShape e, class_contains "active" e).

(** [q] has the elements of [p] as far as [g] can tell. *)
Definition keeps {A} (g : element → A) (p q : page) : Prop :=
  g <$> elements q = g <$> elements p.

(** The variables the installed closures captured denote the links of
    [p]. *)
Definition installed_for (p : page) (inst : installed) : Prop :=
  (∀ r link, r ∈ listeners inst → callback r = NavLinkClick link →
             link ∈ qsa nav_link_sel p)
  ∧ (∀ links secs, scrollSpy inst = Some (links, secs) →
                   links = qsa hash_links_sel p).

(** What the clearing loops do to one element: [clearActiveStates] and the
    loop of the nav-link listener. *)
Definition cleared (e : element) : element :=
  if matches hash_links_sel e then class_remove "active" e else e.

Definition navCleared (e : element) : element :=
  if matches nav_link_sel e then class_remove "active" e else e.

(** ** The choices of the scroll spy *)

(** The test the fallback of the observer callback makes on a section. *)
Definition passed (v : layout) (p : page) (section : node) : bool :=
  Qle_bool (rectTop v section + scrollY v - headerHeight 80 v p - 100)
           (scrollY v).

(** The test and the distance of the animation-frame callback. *)
Definition eligible (v : layout) (p : page) (section : node) : bool :=
  Qle_bool (rectTop v section) (headerHeight 80 v p + 100).

Definition distanceTo (v : layout) (p : page) (section : node) : Q :=
  Qabs (scrollY v + headerHeight 80 v p + 50
        - (rectTop v section + scrollY v)).

(** ** What the routines leave alone *)

(** What a selector can see of an element. *)
Definition selShape (e : element) : string * list string * Assoc.t :=
  (tagName e, classList e, attributes e).

(** What the state of the navigation is read from. *)
Definition ariaShape (e : element) : bool * option string :=
  (class_contains "open" e, getAttribute "aria-expanded" e).

(** The element operation [f] does not change what [g] reads. *)
Definition untouched {A} (g : element → A) (f : element → element) : Prop :=
  ∀ e, g (f e) = g e.


(** The section [about] has scrolled up to the header, [contact] is still
    far below. *)
Definition sampleLayout : layout :=
  mkLayout 300 (λ n, if Nat.eqb n 5 then 60%Q else 700%Q) (λ _, 0%Q).

(** * Basic facts *)

Lemma Assoc_get_set_eq k v l : Assoc.get k (Assoc.set k v l) = Some v.
Proof.
  induction l as [|[k' v'] r IH]; simpl.
  - by rewrite decide_True.
  - destruct (decide (k' = k)) as [->|Hne]; simpl.
    + by rewrite decide_True.
    + by rewrite decide_False.
Qed.

Lemma Assoc_get_set_ne k k' v l :
  k ≠ k' → Assoc.get k' (Assoc.set k v l) = Assoc.get k' l.
Proof.
  intros Hne. induction l as [|[k0 v0] r IH]; simpl.
  - by rewrite decide_False.
  - destruct (decide (k0 = k)) as [->|Hk0]; simpl.
    + by rewrite !decide_False.
    + destruct (decide (k0 = k')); [done | apply IH].
Qed.

Section ElementFacts.

Implicit Types (e : element) (c a v : string).

Lemma class_contains_add_eq c e : class_contains c (class_add c e) = true.
Proof.
  unfold class_add. destruct (class_contains c e) eqn:H; [done|].
  unfold class_contains; simpl. apply bool_decide_eq_true.
  apply elem_of_app. right. by apply list_elem_of_singleton.
Qed.

Lemma class_contains_add_ne c c' e :
  c ≠ c' → class_contains c' (class_add c e) = class_contains c' e.
Proof.
  intros Hne. unfold class_add. destruct (class_contains c e); [done|].
  unfold class_contains; simpl. apply bool_decide_ext.
  rewrite elem_of_app, list_elem_of_singleton. intuition congruence.
Qed.

Lemma class_contains_remove_eq c e :
  class_contains c (class_remove c e) = false.
Proof.
  unfold class_contains, class_remove; simpl. apply bool_decide_eq_false.
  rewrite list_elem_of_filter. intuition congruence.
Qed.

Lemma class_contains_remove_ne c c' e :
  c ≠ c' → class_contains c' (class_remove c e) = class_contains c' e.
Proof.
  intros Hne. unfold class_contains, class_remove; simpl.
  apply bool_decide_ext. rewrite list_elem_of_filter. intuition congruence.
Qed.

Lemma class_contains_toggle c e :
  class_contains c (class_toggle c e) = negb (class_contains c e).
Proof.
  unfold class_toggle. destruct (class_contains c e) eqn:H; simpl.
  - apply class_contains_remove_eq.
  - apply class_contains_add_eq.
Qed.

Lemma getAttribute_class_add a c e :
  getAttribute a (class_add c e) = getAttribute a e.
Proof. unfold class_add. by destruct (class_contains c e). Qed.

Lemma getAttribute_set_eq a v e : getAttribute a (setAttribute a v e) = Some v.
Proof. apply Assoc_get_set_eq. Qed.

Lemma getAttribute_set_ne a a' v e :
  a ≠ a' → getAttribute a' (setAttribute a v e) = getAttribute a' e.
Proof. apply Assoc_get_set_ne. Qed.

Lemma getStyle_set_eq a v e : getStyle a (setStyle a v e) = Some v.
Proof. apply Assoc_get_set_eq. Qed.

Lemma getStyle_set_ne a a' v e :
  a ≠ a' → getStyle a' (setStyle a v e) = getStyle a' e.
Proof. apply Assoc_get_set_ne. Qed.

End ElementFacts.

(** * Updates and queries *)

Lemma lookup_update n f p i :
  elements (update n f p) !! i =
  if decide (i = n) then f <$> elements p !! i else elements p !! i.
Proof.
  unfold update; simpl. destruct (decide (i = n)) as [->|Hne].
  - apply list_lookup_alter_eq.
  - apply list_lookup_alter_ne. congruence.
Qed.

Lemma lookup_update_eq n f p e :
  elements p !! n = Some e → elements (update n f p) !! n = Some (f e).
Proof. intros H. rewrite lookup_update, decide_True by done. by rewrite H. Qed.

Lemma lookup_update_ne n f p i :
  i ≠ n → elements (update n f p) !! i = elements p !! i.
Proof. intros H. by rewrite lookup_update, decide_False. Qed.

Lemma lookup_update_Some n f p i e :
  elements p !! i = Some e → ∃ e', elements (update n f p) !! i = Some e'.
Proof.
  intros H. destruct (decide (i = n)) as [->|Hne].
  - exists (f e). by apply lookup_update_eq.
  - exists e. by rewrite lookup_update_ne.
Qed.

Lemma elem_of_select_from f els i n :
  n ∈ select_from i f els ↔
  ∃ e, (i ≤ n)%nat ∧ els !! (n - i)%nat = Some e ∧ f e = true.
Proof.
  revert i. induction els as [|x r IH]; intros i; simpl.
  - split; [by intros ?%elem_of_nil | by intros (e & _ & ? & _)].
  - assert (Hr : n ∈ select_from (S i) f r ↔
                 ∃ e, (i < n)%nat ∧ (x :: r) !! (n - i)%nat = Some e
                      ∧ f e = true).
    { rewrite IH. split; intros (e & Hle & Hl & Hf); exists e.
      - split_and!; [lia| |done].
        replace (n - i)%nat with (S (n - S i)) by lia. done.
      - split_and!; [lia| |done].
        replace (n - i)%nat with (S (n - S i)) in Hl by lia. done. }
    destruct (f x) eqn:Hx.
    + rewrite elem_of_cons, Hr. split.
      * intros [->|(e & ? & ? & ?)].
        -- exists x. rewrite Nat.sub_diag. done.
        -- exists e. split_and!; [lia|done|done].
      * intros (e & Hle & Hl & Hf).
        destruct (decide (n = i)) as [->|]; [by left|right].
        exists e. split_and!; [lia|done|done].
    + rewrite Hr. split.
      * intros (e & ? & ? & ?). exists e. split_and!; [lia|done|done].
      * intros (e & Hle & Hl & Hf).
        destruct (decide (n = i)) as [->|].
        -- rewrite Nat.sub_diag in Hl. simpl in Hl. congruence.
        -- exists e. split_and!; [lia|done|done].
Qed.

Lemma NoDup_select_from f els i : NoDup (select_from i f els).
Proof.
  revert i. induction els as [|x r IH]; intros i; simpl; [constructor|].
  destruct (f x); [|apply IH].
  constructor; [|apply IH].
  rewrite elem_of_select_from. intros (e & ? & _). lia.
Qed.

Lemma elem_of_qsa sel p n :
  n ∈ qsa sel p ↔ ∃ e, elements p !! n = Some e ∧ matches sel e = true.
Proof.
  unfold qsa. rewrite elem_of_select_from. rewrite Nat.sub_0_r.
  split; [intros (e & _ & ? & ?) | intros (e & ? & ?)]; exists e;
    split_and?; (done || lia).
Qed.

Lemma NoDup_qsa sel p : NoDup (qsa sel p).
Proof. apply NoDup_select_from. Qed.

Lemma qs_Some sel p n :
  qs sel p = Some n → ∃ e, elements p !! n = Some e ∧ matches sel e = true.
Proof.
  unfold qs. intros H. apply elem_of_qsa.
  destruct (qsa sel p); simpl in H; [done|]. injection H as ->. by left.
Qed.


Lemma singleton_of_NoDup (l : list node) (a : node) :
  NoDup l → (∀ x, x ∈ l ↔ x = a) → l = [a].
Proof.
  intros Hnd Hl. destruct l as [|x r].
  - exfalso. by apply (elem_of_nil a), Hl.
  - assert (x = a) as -> by (apply Hl; by left).
    destruct r as [|y r]; [done|]. exfalso.
    apply NoDup_cons in Hnd as [Hx _]. apply Hx.
    assert (y = a) as -> by (apply Hl; right; by left). by left.
Qed.

(** A [forEach] of element updates over the matches of a selector rewrites
    exactly the matching elements. *)
Lemma foldl_alter_select_from (f : element → element) (g : element → bool)
    (pre els : list element) :
  foldl (λ l n, alter f n l) (pre ++ els) (select_from (length pre) g els)
  = pre ++ ((λ e, if g e then f e else e) <$> els).
Proof.
  revert pre. induction els as [|x r IH]; intros pre; simpl; [done|].
  destruct (g x) eqn:Hg; simpl.
  - replace (alter f (length pre) (pre ++ x :: r)) with ((pre ++ [f x]) ++ r).
    + replace (S (length pre)) with (length (pre ++ [f x]))
        by (rewrite length_app; simpl; lia).
      rewrite IH. by rewrite <- app_assoc.
    + rewrite <- app_assoc. simpl.
      rewrite alter_app_r_alt by lia. by rewrite Nat.sub_diag.
  - replace (pre ++ x :: r) with ((pre ++ [x]) ++ r) by by rewrite <- app_assoc.
    replace (S (length pre)) with (length (pre ++ [x]))
      by (rewrite length_app; simpl; lia).
    rewrite IH. by rewrite <- app_assoc.
Qed.

Lemma forEach_update_elements ns f p :
  forEach ns (λ n, update n f) p
  = set_elements (foldl (λ l n, alter f n l) (elements p) ns) p.
Proof.
  unfold forEach. revert p. induction ns as [|n ns IH]; intros p; simpl.
  - by destruct p.
  - rewrite IH. by destruct p.
Qed.

Lemma forEach_qsa_update sel f p :
  forEach (qsa sel p) (λ n, update n f) p
  = set_elements ((λ e, if matches sel e then f e else e) <$> elements p) p.
Proof.
  rewrite forEach_update_elements. f_equal.
  apply (foldl_alter_select_from f (matches sel) []).
Qed.

(** * The navigation toggle *)

Section NavToggle.

Implicit Types (p : page) (toggle list : node) (e : event).

Lemma hasClass_lookup c n p el :
  elements p !! n = Some el → hasClass c n p = class_contains c el.
Proof. unfold hasClass. by intros ->. Qed.

Lemma attr_lookup a n p el :
  elements p !! n = Some el → attr a n p = getAttribute a el.
Proof. unfold attr. by intros ->. Qed.

(** The two updates every closing branch performs. *)
Lemma closeNav_open toggle list p el :
  elements p !! list = Some el →
  hasClass "open" list (closeNav toggle list p) = false.
Proof.
  intros Hl. unfold closeNav.
  pose proof (lookup_update_eq list (class_remove "open") p el Hl) as H1.
  destruct (decide (list = toggle)) as [<-|Hne].
  - erewrite hasClass_lookup by (by apply lookup_update_eq).
    apply class_contains_remove_eq.
  - erewrite hasClass_lookup
      by (rewrite lookup_update_ne by done; exact H1).
    apply class_contains_remove_eq.
Qed.

Lemma closeNav_aria toggle list p el :
  elements p !! toggle = Some el →
  attr "aria-expanded" toggle (closeNav toggle list p) = Some "false".
Proof.
  intros Ht. unfold closeNav.
  destruct (lookup_update_Some list (class_remove "open") p toggle el Ht)
    as [el' Hel'].
  erewrite attr_lookup by (by apply lookup_update_eq).
  apply getAttribute_set_eq.
Qed.

Lemma closeNav_matches toggle list p elt ell :
  elements p !! toggle = Some elt → elements p !! list = Some ell →
  aria_matches_open toggle list (closeNav toggle list p).
Proof.
  intros Ht Hl. unfold aria_matches_open.
  rewrite (closeNav_open _ _ _ _ Hl), (closeNav_aria _ _ _ _ Ht).
  split; intros ?; discriminate.
Qed.

Lemma closeNav_other toggle list p n :
  n ≠ toggle → n ≠ list →
  elements (closeNav toggle list p) !! n = elements p !! n.
Proof.
  intros H1 H2. unfold closeNav. by rewrite !lookup_update_ne.
Qed.

Lemma onToggleClick_open toggle list p el :
  elements p !! list = Some el →
  hasClass "open" list (onToggleClick toggle list p)
  = negb (hasClass "open" list p).
Proof.
  intros Hl. unfold onToggleClick.
  pose proof (lookup_update_eq list (class_toggle "open") p el Hl) as H1.
  rewrite (hasClass_lookup _ _ p el Hl).
  destruct (decide (list = toggle)) as [<-|Hne].
  - erewrite hasClass_lookup by (by apply lookup_update_eq).
    apply class_contains_toggle.
  - erewrite hasClass_lookup
      by (rewrite lookup_update_ne by done; exact H1).
    apply class_contains_toggle.
Qed.

Lemma onToggleClick_aria toggle list p el :
  elements p !! toggle = Some el →
  attr "aria-expanded" toggle (onToggleClick toggle list p)
  = Some (string_of_bool (negb (hasClass "open" list p))).
Proof.
  intros Ht. unfold onToggleClick.
  destruct (lookup_update_Some list (class_toggle "open") p toggle el Ht)
    as [el' Hel'].
  erewrite attr_lookup by (by apply lookup_update_eq).
  apply getAttribute_set_eq.
Qed.

Lemma onToggleClick_lookup toggle list p n el :
  elements p !! n = Some el →
  ∃ el', elements (onToggleClick toggle list p) !! n = Some el'.
Proof.
  intros Hn. unfold onToggleClick.
  destruct (lookup_update_Some list (class_toggle "open") p n el Hn)
    as [el1 H1].
  eapply lookup_update_Some, H1.
Qed.

Lemma onToggleClick_matches toggle list p elt ell :
  elements p !! toggle = Some elt → elements p !! list = Some ell →
  aria_matches_open toggle list (onToggleClick toggle list p).
Proof.
  intros Ht Hl. unfold aria_matches_open.
  rewrite (onToggleClick_open _ _ _ _ Hl), (onToggleClick_aria _ _ _ _ Ht).
  by destruct (hasClass "open" list p).
Qed.

(** C2: a click on the toggle flips the class [open] of the list, writes
    the resulting state into [aria-expanded] of the toggle, and a second
    click brings the list back to the state it had. *)
Theorem toggle_click_flips_open p toggle list :
  qs nav_toggle_sel p = Some toggle →
  qs nav_list_sel p = Some list →
  let p1 := onToggleClick toggle list p in
  mkRegistration (Element toggle) "click" (ToggleClick toggle list)
    ∈ setupNavToggle p
  ∧ hasClass "open" list p1 = negb (hasClass "open" list p)
  ∧ attr "aria-expanded" toggle p1
    = Some (string_of_bool (hasClass "open" list p1))
  ∧ hasClass "open" list (onToggleClick toggle list p1)
    = hasClass "open" list p.
Proof.
  intros Ht Hl p1.
  destruct (qs_Some _ _ _ Ht) as (elt & Helt & _).
  destruct (qs_Some _ _ _ Hl) as (ell & Hell & _).
  split_and!.
  - unfold setupNavToggle. rewrite Ht, Hl. by left.
  - by eapply onToggleClick_open.
  - subst p1. erewrite onToggleClick_open by done.
    by eapply onToggleClick_aria.
  - destruct (onToggleClick_lookup toggle list p list ell Hell) as [ell' H'].
    erewrite onToggleClick_open by exact H'.
    subst p1. erewrite onToggleClick_open by done.
    apply negb_involutive.
Qed.

(** C8, as amended: each of the four listeners of the navigation keeps
    [aria-expanded] in step with the class [open], and establishes the
    correspondence whenever it takes the branch that writes. *)
Theorem nav_listeners_keep_aria_in_step p toggle list e :
  qs nav_toggle_sel p = Some toggle →
  qs nav_list_sel p = Some list →
  aria_matches_open toggle list (onToggleClick toggle list p)
  ∧ (hasClass "nav__link" (target e) p = true →
     aria_matches_open toggle list (onListClick toggle list e p))
  ∧ (contains toggle (target e) p = false →
     contains list (target e) p = false →
     aria_matches_open toggle list (onOutsideClick toggle list e p))
  ∧ (key e = "Escape" → hasClass "open" list p = true →
     aria_matches_open toggle list (onEscapeKeydown toggle list e p))
  ∧ (aria_matches_open toggle list p →
     aria_matches_open toggle list (onListClick toggle list e p)
     ∧ aria_matches_open toggle list (onOutsideClick toggle list e p)
     ∧ aria_matches_open toggle list (onEscapeKeydown toggle list e p)).
Proof.
  intros Ht Hl.
  destruct (qs_Some _ _ _ Ht) as (elt & Helt & _).
  destruct (qs_Some _ _ _ Hl) as (ell & Hell & _).
  pose proof (closeNav_matches toggle list p elt ell Helt Hell) as Hclose.
  split_and!.
  - by eapply onToggleClick_matches.
  - intros Hlink. unfold onListClick. by rewrite Hlink.
  - intros H1 H2. unfold onOutsideClick. by rewrite H1, H2.
  - intros Hk Ho. unfold onEscapeKeydown.
    rewrite bool_decide_eq_true_2, Ho by done. exact Hclose.
  - intros Hinv. split_and!.
    + unfold onListClick. by destruct (hasClass "nav__link" _ _).
    + unfold onOutsideClick. by destruct (_ && _).
    + unfold onEscapeKeydown. by destruct (_ && _).
Qed.

(** C10: the keydown listener of the document leaves the page as it is
    unless the key is Escape and the list is open; then the list loses
    [open], [aria-expanded] of the toggle becomes ['false'], [focus] is
    called on the toggle and no other element changes. *)
Theorem escape_keydown_only_when_open p toggle list e :
  (hasClass "open" list p = false → onEscapeKeydown toggle list e p = p)
  ∧ (key e ≠ "Escape" → onEscapeKeydown toggle list e p = p)
  ∧ (key e = "Escape" → hasClass "open" list p = true →
     is_Some (elements p !! toggle) →
     let p' := onEscapeKeydown toggle list e p in
     hasClass "open" list p' = false
     ∧ attr "aria-expanded" toggle p' = Some "false"
     ∧ calls p' = calls p ++ [Focus toggle]
     ∧ revealObserved p' = revealObserved p
     ∧ ∀ n, n ≠ toggle → n ≠ list → elements p' !! n = elements p !! n).
Proof.
  split_and!.
  - intros Ho. unfold onEscapeKeydown. rewrite Ho. by rewrite andb_false_r.
  - intros Hk. unfold onEscapeKeydown. by rewrite bool_decide_eq_false_2.
  - intros Hk Ho [elt Helt] p'. subst p'. unfold onEscapeKeydown.
    rewrite bool_decide_eq_true_2, Ho by done. simpl.
    assert (∃ ell, elements p !! list = Some ell) as [ell Hell].
    { unfold hasClass in Ho. destruct (elements p !! list); [eauto|done]. }
    split_and!.
    + exact (closeNav_open toggle list p ell Hell).
    + exact (closeNav_aria toggle list p elt Helt).
    + done.
    + done.
    + intros n H1 H2. by apply closeNav_other.
Qed.

End NavToggle.

(** * The active link *)

Section ActiveLink.

Implicit Types (p : page) (e : element).

Lemma matches_hash_links e :
  matches hash_links_sel e
  = class_contains "nav__link" e
    && from_option (starts_with "#") false (getAttribute "href" e).
Proof.
  unfold matches, hash_links_sel.
  cbn [existsb forallb matches_simple].
  by rewrite andb_true_r, orb_false_r.
Qed.

Lemma matches_active_hash_links e :
  matches active_hash_links_sel e
  = matches hash_links_sel e && class_contains "active" e.
Proof.
  rewrite matches_hash_links. unfold matches, active_hash_links_sel.
  cbn [existsb forallb matches_simple].
  by rewrite andb_true_r, orb_false_r, andb_assoc.
Qed.

Lemma matches_active_nav_links e :
  matches active_nav_links_sel e
  = class_contains "nav__link" e && class_contains "active" e.
Proof.
  unfold matches, active_nav_links_sel.
  cbn [existsb forallb matches_simple].
  by rewrite andb_true_r, orb_false_r.
Qed.

Lemma matches_nav_link e :
  matches nav_link_sel e = class_contains "nav__link" e.
Proof.
  unfold matches, nav_link_sel. cbn [existsb forallb matches_simple].
  by rewrite andb_true_r, orb_false_r.
Qed.

Lemma matches_active_nav_setAttribute a v e :
  matches active_nav_links_sel (setAttribute a v e)
  = matches active_nav_links_sel e.
Proof. by rewrite !matches_active_nav_links. Qed.

Lemma nav_link_ne_active : "active" ≠ "nav__link".
Proof. discriminate. Qed.

Lemma clearActiveStates_elements p :
  clearActiveStates (qsa hash_links_sel p) p
  = set_elements (cleared <$> elements p) p.
Proof. apply forEach_qsa_update. Qed.

Lemma cleared_nav_link e :
  class_contains "nav__link" (cleared e) = class_contains "nav__link" e.
Proof.
  unfold cleared. destruct (matches hash_links_sel e); [|done].
  apply class_contains_remove_ne, nav_link_ne_active.
Qed.

Lemma cleared_hash_link e :
  matches hash_links_sel (cleared e) = matches hash_links_sel e.
Proof.
  rewrite !matches_hash_links, cleared_nav_link. f_equal.
  unfold cleared. by destruct (matches hash_links_sel e).
Qed.

Lemma cleared_not_active_hash e :
  matches active_hash_links_sel (cleared e) = false.
Proof.
  rewrite matches_active_hash_links, cleared_hash_link.
  destruct (matches hash_links_sel e) eqn:H; [|done]. simpl.
  unfold cleared. rewrite H. apply class_contains_remove_eq.
Qed.


Lemma lookup_cleared p n e' :
  elements (clearActiveStates (qsa hash_links_sel p) p) !! n = Some e' →
  ∃ e, elements p !! n = Some e ∧ e' = cleared e.
Proof.
  rewrite clearActiveStates_elements. simpl.
  rewrite list_lookup_fmap. destruct (elements p !! n) as [e|]; [|done].
  simpl. intros [= <-]. eauto.
Qed.

(** After the clearing step no managed link is active. *)
Lemma clearActiveStates_none_active p :
  qsa active_hash_links_sel (clearActiveStates (qsa hash_links_sel p) p) = [].
Proof.
  destruct (qsa _ _) as [|x r] eqn:Hq; [done|]. exfalso.
  assert (x ∈ qsa active_hash_links_sel
                (clearActiveStates (qsa hash_links_sel p) p)) as Hx
    by (rewrite Hq; by left).
  apply elem_of_qsa in Hx as (e' & He' & Hm).
  apply lookup_cleared in He' as (e & _ & ->).
  by rewrite cleared_not_active_hash in Hm.
Qed.


Lemma observerCallback_sets secs entries v p links :
  ∃ sectionId,
    observerCallback links secs entries v p
    = setActiveSection links sectionId p.
Proof.
  unfold observerCallback. destruct (sortByRatio _); eauto.
Qed.

Lemma scrollFrame_sets secs v p links :
  ∃ sectionId, scrollFrame links secs v p
               = setActiveSection links sectionId p.
Proof. unfold scrollFrame. eauto. Qed.

End ActiveLink.

(** * Listeners that query the document by a string *)

Section Listeners.

Variable parseSelector : string → option selector.

Implicit Types (p : page) (e : element).

(** What the nav-link listener does to one element when it clears. *)
Lemma navCleared_nav_link e :
  class_contains "nav__link" (navCleared e) = class_contains "nav__link" e.
Proof.
  unfold navCleared. destruct (matches nav_link_sel e); [|done].
  apply class_contains_remove_ne, nav_link_ne_active.
Qed.

Lemma navCleared_not_active e :
  matches active_nav_links_sel (navCleared e) = false.
Proof.
  rewrite matches_active_nav_links, navCleared_nav_link.
  destruct (class_contains "nav__link" e) eqn:H; [|done]. simpl.
  unfold navCleared. rewrite matches_nav_link, H.
  apply class_contains_remove_eq.
Qed.

(** The page the nav-link listener leaves when its target exists. *)
Lemma onNavLinkClick_found link p href sel t :
  attr "href" link p = Some href →
  parseSelector ("#" +:+ substring1 href) = Some sel →
  qs sel p = Some t →
  onNavLinkClick parseSelector link p
  = (mkPage (alter (setAttribute "tabindex" "-1") t
               (alter (class_add "active") link
                  (navCleared <$> elements p)))
            (hasIntersectionObserver p) (revealObserved p)
            (calls p ++ [PreventDefault; ScrollIntoView t; Focus t;
                         RemoveTabindexIn t 1000]),
     Normal).
Proof.
  intros Hh Hp Hq. unfold onNavLinkClick.
  change (attr "href" link (record PreventDefault p)) with (attr "href" link p).
  rewrite Hh, Hp.
  change (qs sel (record PreventDefault p)) with (qs sel p). rewrite Hq.
  change (qsa nav_link_sel (record PreventDefault p))
    with (qsa nav_link_sel p).
  rewrite (forEach_update_elements (qsa nav_link_sel p)).
  pose proof (foldl_alter_select_from (class_remove "active")
                (matches nav_link_sel) [] (elements p)) as Hfold.
  simpl in Hfold. unfold qsa.
  cbn [elements record set_elements]. rewrite Hfold.
  unfold update, record, set_elements; simpl.
  by rewrite <- !app_assoc.
Qed.



End Listeners.

(** * External links *)

Section ExternalLinks.

Implicit Types (p : page) (e : element) (s : string).

Lemma string_app_assoc s1 s2 s3 : (s1 +:+ s2) +:+ s3 = s1 +:+ s2 +:+ s3.
Proof.
  induction s1 as [|c s1 IH]; [done|].
  change (String c ((s1 +:+ s2) +:+ s3) = String c (s1 +:+ s2 +:+ s3)).
  by rewrite IH.
Qed.

Lemma starts_with_ci_app pat s : starts_with_ci pat (pat +:+ s) = true.
Proof.
  induction pat as [|c pat IH]; [done|].
  change (starts_with_ci (String c pat) (String c (pat +:+ s)) = true).
  cbn [starts_with_ci]. by rewrite bool_decide_eq_true_2, IH.
Qed.

(** A string that ends with the pattern passes the test. *)
Lemma regex_test_ci_suffix pat s : regex_test_ci pat (s +:+ pat) = true.
Proof.
  induction s as [|c s IH].
  - change (regex_test_ci pat pat = true).
    pose proof (starts_with_ci_app pat "") as H.
    assert (pat +:+ "" = pat) as Hnil.
    { clear. induction pat as [|c pat IH]; [done|].
      change (String c (pat +:+ "") = String c pat). by rewrite IH. }
    rewrite Hnil in H. destruct pat; cbn [regex_test_ci]; by rewrite H.
  - change (regex_test_ci pat (String c (s +:+ pat)) = true).
    cbn [regex_test_ci]. rewrite IH. apply orb_true_r.
Qed.

Lemma regex_test_ci_empty : regex_test_ci "noopener" "" = false.
Proof. reflexivity. Qed.

(** The value [harden] writes. *)
Lemma hardened_rel_value s :
  (if bool_decide (s = "") then "" else s +:+ " ") +:+ "noopener"
  = if bool_decide (s = "") then "noopener" else s +:+ " noopener".
Proof. case_bool_decide; [done|]. by rewrite string_app_assoc. Qed.

Lemma harden_unfold e :
  harden e
  = if regex_test_ci "noopener" (rel_of e) then e
    else setAttribute "rel"
           (if bool_decide (rel_of e = "") then "noopener"
            else rel_of e +:+ " noopener") e.
Proof.
  unfold harden. rewrite hardened_rel_value.
  by destruct (regex_test_ci "noopener" (rel_of e)).
Qed.

Lemma rel_of_set v e : rel_of (setAttribute "rel" v e) = v.
Proof. unfold rel_of. by rewrite getAttribute_set_eq. Qed.

Lemma harden_has_noopener e :
  regex_test_ci "noopener" (rel_of (harden e)) = true.
Proof.
  rewrite harden_unfold.
  destruct (regex_test_ci "noopener" (rel_of e)) eqn:H; [done|].
  rewrite rel_of_set. case_bool_decide; [done|].
  change (rel_of e +:+ " noopener") with (rel_of e +:+ " " +:+ "noopener").
  rewrite <- string_app_assoc. apply regex_test_ci_suffix.
Qed.

Lemma harden_idempotent e : harden (harden e) = harden e.
Proof.
  pose proof (harden_has_noopener e) as H.
  rewrite (harden_unfold (harden e)). by rewrite H.
Qed.

Lemma matches_blank_anchor e :
  matches blank_anchors_sel e
  = bool_decide (tagName e = "a")
    && value_matches "target" "_blank" (getAttribute "target" e).
Proof.
  unfold matches, blank_anchors_sel. cbn [existsb forallb matches_simple].
  by rewrite andb_true_r, orb_false_r.
Qed.

Lemma harden_blank_anchor e :
  matches blank_anchors_sel (harden e) = matches blank_anchors_sel e.
Proof.
  rewrite harden_unfold.
  destruct (regex_test_ci "noopener" (rel_of e)); [done|].
  rewrite !matches_blank_anchor. f_equal.
  by rewrite getAttribute_set_ne.
Qed.

Lemma secureExternalLinks_elements p :
  secureExternalLinks p
  = set_elements
      ((λ e, if matches blank_anchors_sel e then harden e else e)
         <$> elements p) p.
Proof. apply forEach_qsa_update. Qed.

Lemma rel_attribute_of_test e :
  regex_test_ci "noopener" (rel_of e) = true →
  ∃ v, getAttribute "rel" e = Some v ∧ regex_test_ci "noopener" v = true.
Proof.
  unfold rel_of. destruct (getAttribute "rel" e) as [v|]; [eauto|].
  intros H. change (regex_test_ci "noopener" "" = true) in H.
  by rewrite regex_test_ci_empty in H.
Qed.

(** C4: after [secureExternalLinks] every anchor with [target="_blank"]
    has a [rel] attribute that passes [/noopener/i]; an anchor whose [rel]
    passed already is the element it was, every other such anchor has
    [rel] set to the old value followed by [" noopener"], or to
    ["noopener"] when the old value was empty; elements that are no such
    anchors are not touched. *)
Theorem blank_anchors_get_noopener p :
  let q := secureExternalLinks p in
  (∀ a e', a ∈ qsa blank_anchors_sel q → elements q !! a = Some e' →
     ∃ v, getAttribute "rel" e' = Some v
          ∧ regex_test_ci "noopener" v = true)
  ∧ (∀ a e, elements p !! a = Some e →
       elements q !! a = Some
         (if matches blank_anchors_sel e
          then if regex_test_ci "noopener" (rel_of e) then e
               else setAttribute "rel"
                      (if bool_decide (rel_of e = "") then "noopener"
                       else rel_of e +:+ " noopener") e
          else e))
  ∧ length (elements q) = length (elements p)
  ∧ calls q = calls p
  ∧ revealObserved q = revealObserved p.
Proof.
  intros q. subst q. rewrite secureExternalLinks_elements.
  cbn [elements calls revealObserved set_elements]. split_and!.
  - intros a e' (e1 & He1 & Hm)%elem_of_qsa He'.
    cbn [elements set_elements] in He1. rewrite He' in He1.
    injection He1 as <-. rewrite list_lookup_fmap in He'.
    apply fmap_Some in He' as (e & He & ->). apply rel_attribute_of_test.
    destruct (matches blank_anchors_sel e) eqn:Hb.
    + apply harden_has_noopener.
    + by rewrite Hb in Hm.
  - intros a e He. rewrite list_lookup_fmap, He.
    by rewrite <- harden_unfold.
  - by rewrite length_fmap.
  - done.
  - done.
Qed.

(** C9: a second run of [secureExternalLinks] changes nothing. *)
Theorem secureExternalLinks_idempotent p :
  secureExternalLinks (secureExternalLinks p) = secureExternalLinks p.
Proof.
  rewrite (secureExternalLinks_elements (secureExternalLinks p)).
  rewrite secureExternalLinks_elements.
  unfold set_elements.
  cbn [elements hasIntersectionObserver revealObserved calls]. f_equal.
  rewrite <- list_fmap_compose. apply list_fmap_ext.
  intros i e _. unfold compose. cbv beta.
  destruct (matches blank_anchors_sel e) eqn:Hb.
  - by rewrite harden_blank_anchor, Hb, harden_idempotent.
  - by rewrite Hb.
Qed.

End ExternalLinks.

(** * Keyboard activation of cards *)

Section Cards.

Implicit Types (p q : page) (e : event).



End Cards.

(** * Reveal on scroll *)

Section QuickReveal.

Implicit Types (p r : page) (n : node) (entries : list entry).

Lemma showNow_style el :
  getStyle "opacity" (showNow el) = Some "1"
  ∧ getStyle "transform" (showNow el) = Some "none".
Proof.
  unfold showNow. split; [|apply getStyle_set_eq].
  rewrite getStyle_set_ne by done. apply getStyle_set_eq.
Qed.

Lemma hide_style el :
  getStyle "opacity" (hide el) = Some "0"
  ∧ getStyle "transform" (hide el) = Some "translateY(20px)".
Proof.
  unfold hide. split.
  - rewrite !getStyle_set_ne by done. apply getStyle_set_eq.
  - rewrite getStyle_set_ne by done. apply getStyle_set_eq.
Qed.

Lemma reveal_style el :
  getStyle "opacity" (reveal el) = Some "1"
  ∧ getStyle "transform" (reveal el) = Some "translateY(0)".
Proof.
  unfold reveal. split; [|apply getStyle_set_eq].
  rewrite getStyle_set_ne by done. apply getStyle_set_eq.
Qed.

Lemma forEach_observe ns p :
  elements (forEach ns observe p) = elements p
  ∧ ∀ n, n ∈ revealObserved (forEach ns observe p)
         ↔ n ∈ revealObserved p ∨ n ∈ ns.
Proof.
  unfold forEach. revert p. induction ns as [|m ns IH]; intros p; simpl.
  - split; [done|]. intros n. rewrite elem_of_nil. tauto.
  - destruct (IH (observe m p)) as [IH1 IH2]. split.
    + rewrite IH1. unfold observe. by case_bool_decide.
    + intros n. rewrite IH2, elem_of_cons. unfold observe.
      case_bool_decide as Hm; cbn [revealObserved set_revealObserved].
      * split; [tauto|]. intros [?|[->|?]]; tauto.
      * rewrite elem_of_app, list_elem_of_singleton. tauto.
Qed.

Lemma revealCallback_cons en entries p :
  revealCallback (en :: entries) p = revealCallback entries (revealStep p en).
Proof. done. Qed.

Lemma revealStep_other p en n :
  (isIntersecting en && bool_decide (entryTarget en = n)) = false →
  elements (revealStep p en) !! n = elements p !! n
  ∧ (n ∈ revealObserved (revealStep p en) ↔ n ∈ revealObserved p).
Proof.
  unfold revealStep. destruct (isIntersecting en); simpl; [|done].
  intros Hn%bool_decide_eq_false. split.
  - change (elements (update (entryTarget en) reveal p) !! n
            = elements p !! n).
    apply lookup_update_ne. congruence.
  - rewrite list_elem_of_filter. intuition congruence.
Qed.

Lemma revealStep_lookup p en n el :
  elements p !! n = Some el →
  ∃ el', elements (revealStep p en) !! n = Some el'.
Proof.
  intros H. unfold revealStep. destruct (isIntersecting en); [|eauto].
  change (∃ el', elements (update (entryTarget en) reveal p) !! n
                 = Some el').
  by eapply lookup_update_Some.
Qed.

Lemma revealStep_observed p en n :
  n ∈ revealObserved (revealStep p en) → n ∈ revealObserved p.
Proof.
  unfold revealStep. destruct (isIntersecting en); [|done]. simpl.
  rewrite list_elem_of_filter. tauto.
Qed.

Lemma revealStep_hit p en n el :
  elements p !! n = Some el →
  isIntersecting en = true → entryTarget en = n →
  revealed n (revealStep p en).
Proof.
  intros Hel Hi <-. unfold revealStep. rewrite Hi.
  unfold revealed, styleOf.
  change (elements (unobserve (entryTarget en)
                      (update (entryTarget en) reveal p)))
    with (elements (update (entryTarget en) reveal p)).
  rewrite (lookup_update_eq _ _ _ _ Hel). apply reveal_style.
Qed.

Lemma revealStep_unobserves p en n :
  isIntersecting en = true → entryTarget en = n →
  n ∉ revealObserved (revealStep p en).
Proof.
  intros Hi <-. unfold revealStep. rewrite Hi. simpl.
  rewrite list_elem_of_filter. tauto.
Qed.

Lemma revealStep_keeps_revealed p en n :
  revealed n p → revealed n (revealStep p en).
Proof.
  intros [H1 H2]. unfold revealStep.
  destruct (isIntersecting en); [|done].
  unfold revealed, styleOf in *.
  change (elements (unobserve (entryTarget en)
                      (update (entryTarget en) reveal p)))
    with (elements (update (entryTarget en) reveal p)).
  rewrite lookup_update. destruct (decide (n = entryTarget en)); [|done].
  destruct (elements p !! n) as [el|]; [|done]. apply reveal_style.
Qed.

Lemma revealCallback_keeps_revealed entries p n :
  revealed n p → revealed n (revealCallback entries p).
Proof.
  revert p. induction entries as [|en entries IH]; intros p H; [done|].
  rewrite revealCallback_cons. by apply IH, revealStep_keeps_revealed.
Qed.

Lemma revealCallback_observed entries p n :
  n ∈ revealObserved (revealCallback entries p) → n ∈ revealObserved p.
Proof.
  revert p. induction entries as [|en entries IH]; intros p H; [done|].
  rewrite revealCallback_cons in H. by eapply revealStep_observed, IH.
Qed.

Lemma revealCallback_other entries p n :
  reveals n entries = false →
  elements (revealCallback entries p) !! n = elements p !! n
  ∧ (n ∈ revealObserved (revealCallback entries p) ↔ n ∈ revealObserved p).
Proof.
  revert p. induction entries as [|en entries IH]; intros p; [done|].
  unfold reveals. cbn [existsb]. intros [H1 H2]%orb_false_iff.
  rewrite revealCallback_cons.
  destruct (IH (revealStep p en) H2) as [IH1 IH2].
  destruct (revealStep_other p en n H1) as [S1 S2].
  split; [by rewrite IH1 | by rewrite IH2].
Qed.

Lemma revealCallback_hit entries p n el :
  elements p !! n = Some el →
  reveals n entries = true →
  revealed n (revealCallback entries p).
Proof.
  revert p el. induction entries as [|en entries IH]; intros p el Hel;
    [done|].
  unfold reveals. cbn [existsb]. rewrite revealCallback_cons.
  destruct (isIntersecting en && bool_decide (entryTarget en = n)) eqn:Hen.
  - intros _. apply andb_true_iff in Hen as [Hi Ht%bool_decide_eq_true].
    by apply revealCallback_keeps_revealed, (revealStep_hit p en n el).
  - simpl. intros Hr.
    destruct (revealStep_lookup p en n el Hel) as [el' Hel'].
    by apply (IH _ el').
Qed.

Lemma revealCallback_unobserves entries p n :
  reveals n entries = true →
  n ∉ revealObserved (revealCallback entries p).
Proof.
  revert p. induction entries as [|en entries IH]; intros p; [done|].
  unfold reveals. cbn [existsb]. rewrite revealCallback_cons.
  destruct (isIntersecting en && bool_decide (entryTarget en = n)) eqn:Hen.
  - intros _. apply andb_true_iff in Hen as [Hi Ht%bool_decide_eq_true].
    intros H. by apply (revealStep_unobserves p en n Hi Ht),
                       (revealCallback_observed entries).
  - simpl. apply IH.
Qed.

Lemma unobserved_never_delivered batches p n :
  n ∉ revealObserved p → deliverable p batches →
  filter (λ b, reveals n b = true) batches = [].
Proof.
  revert p. induction batches as [|b bs IH]; intros p Hn; [done|].
  intros [Hb Hbs]. cbn [deliverable] in *.
  assert (reveals n b = false) as Hr.
  { unfold reveals. apply not_true_is_false.
    intros (en & Hen & [_ Ht%bool_decide_eq_true]%andb_true_iff)%existsb_exists.
    apply Hn. rewrite <- Ht.
    rewrite Forall_forall in Hb. apply Hb. by apply list_elem_of_In. }
  rewrite filter_cons_False by congruence.
  apply (IH (revealCallback b p)); [|done].
  intros H. by apply Hn, (revealCallback_observed b).
Qed.

Lemma revealed_at_most_once batches p n :
  deliverable p batches →
  (length (filter (λ b, reveals n b = true) batches) ≤ 1)%nat.
Proof.
  revert p. induction batches as [|b bs IH]; intros p; [simpl; lia|].
  intros [Hb Hbs]. destruct (reveals n b) eqn:Hr.
  - rewrite filter_cons_True by done.
    rewrite (unobserved_never_delivered bs (revealCallback b p) n);
      [simpl; lia | by apply revealCallback_unobserves | done].
  - rewrite filter_cons_False by congruence. by apply (IH (revealCallback b p)).
Qed.

Lemma quickReveal_fallback p :
  hasIntersectionObserver p = false →
  quickReveal p
  = set_elements
      ((λ el, if matches reveal_items_sel el then showNow el else el)
         <$> elements p) p.
Proof.
  intros H. unfold quickReveal. rewrite H. cbn [negb].
  apply forEach_qsa_update.
Qed.

Lemma quickReveal_observing p :
  hasIntersectionObserver p = true →
  elements (quickReveal p)
  = (λ el, if matches reveal_items_sel el then hide el else el)
      <$> elements p
  ∧ ∀ n, n ∈ revealObserved (quickReveal p)
         ↔ n ∈ revealObserved p ∨ n ∈ qsa reveal_items_sel p.
Proof.
  intros H. unfold quickReveal. rewrite H. cbn [negb].
  destruct (forEach_observe (qsa reveal_items_sel p)
              (forEach (qsa reveal_items_sel p) (λ el, update el hide) p))
    as [E O].
  rewrite E. rewrite forEach_qsa_update in *. split; [done|]. exact O.
Qed.

(** C5: with [IntersectionObserver], [quickReveal] gives every reveal item
    opacity ['0'] and transform ['translateY(20px)'] and observes it with
    threshold 0.1; the callback gives the target of an intersecting entry
    opacity ['1'] and transform ['translateY(0)'] and unobserves it, and
    leaves every other node alone, so that among the batches the browser
    delivers at most one reveals a given item.  Without
    [IntersectionObserver] every item gets opacity ['1'] and transform
    ['none'], nothing else is written and nothing is observed. *)
Theorem quickReveal_hides_then_reveals_once p :
  let items := qsa reveal_items_sel p in
  let q := quickReveal p in
  (hasIntersectionObserver p = false →
     revealObserved q = revealObserved p
     ∧ (∀ n el, elements p !! n = Some el →
          elements q !! n
          = Some (if matches reveal_items_sel el then showNow el else el))
     ∧ ∀ item, item ∈ items →
         styleOf "opacity" item q = Some "1"
         ∧ styleOf "transform" item q = Some "none")
  ∧ (hasIntersectionObserver p = true →
     ∀ item, item ∈ items →
       styleOf "opacity" item q = Some "0"
       ∧ styleOf "transform" item q = Some "translateY(20px)"
       ∧ item ∈ revealObserved q)
  ∧ revealObserverOptions.1 = (1 # 10)%Q
  ∧ (∀ entries r n, reveals n entries = true →
       (n ∉ revealObserved (revealCallback entries r))
       ∧ (is_Some (elements r !! n) → revealed n (revealCallback entries r)))
  ∧ (∀ entries r n, reveals n entries = false →
       elements (revealCallback entries r) !! n = elements r !! n
       ∧ (n ∈ revealObserved (revealCallback entries r)
          ↔ n ∈ revealObserved r))
  ∧ (∀ batches r n, deliverable r batches →
       (length (filter (λ b, reveals n b = true) batches) ≤ 1)%nat).
Proof.
  intros items q. subst items q. split_and!.
  - intros H. rewrite (quickReveal_fallback p H).
    cbn [revealObserved elements set_elements]. split_and!.
    + done.
    + intros n el Hel. by rewrite list_lookup_fmap, Hel.
    + intros item (el & Hel & Hm)%elem_of_qsa. unfold styleOf.
      cbn [elements set_elements]. rewrite list_lookup_fmap, Hel.
      cbn [fmap option_fmap option_map mbind option_bind].
      rewrite Hm. apply showNow_style.
  - intros H item Hitem. destruct (quickReveal_observing p H) as [E O].
    pose proof Hitem as (el & Hel & Hm)%elem_of_qsa.
    unfold styleOf. rewrite E, list_lookup_fmap, Hel.
    cbn [fmap option_fmap option_map mbind option_bind]. rewrite Hm.
    destruct (hide_style el) as [H1 H2]. split_and!; [done|done|].
    apply O. by right.
  - done.
  - intros entries r n Hr. split.
    + by apply revealCallback_unobserves.
    + intros [el Hel]. by apply (revealCallback_hit entries r n el).
  - intros entries r n Hr. by apply revealCallback_other.
  - intros batches r n. apply revealed_at_most_once.
Qed.

End QuickReveal.

(** * Failures *)

(** C3: a click on a nav link without [href] does not pass silently: the
    listener [enhanceAccessibility] registers on the link throws a
    [TypeError], whatever the event and the selector engine. *)
Theorem nav_link_without_href_throws :
  (enhanceAccessibility noHrefPage).2
  = [mkRegistration (Element 1) "click" (NavLinkClick 1)]
  ∧ ∀ parseSelector e,
      (handle parseSelector (NavLinkClick 1) e noHrefPage).2 = Throw TypeError.
Proof. split; [reflexivity | intros; reflexivity]. Qed.

(** A lone [#] is no selector: the same listener throws a [SyntaxError]. *)
Example nav_link_bare_hash_throws :
  identEngine "#" = None
  ∧ ∀ e, (handle identEngine (NavLinkClick 0) e bareHashPage).2
         = Throw SyntaxError.
Proof. split; [reflexivity | intros; reflexivity]. Qed.

(** Without [IntersectionObserver], [init] ends in a [ReferenceError] before
    [quickReveal] runs, so that the fallback of [quickReveal] shows
    nothing. *)
Example init_without_observer_throws :
  (init "2026" noObserverPage).2 = Throw ReferenceError
  ∧ elements ((init "2026" noObserverPage).1).1 = elements noObserverPage.
Proof. split; reflexivity. Qed.

(** Routines whose element is missing leave the page alone. *)
Lemma missing_elements_are_skipped p year :
  (qs year_sel p = None → setYear year p = p)
  ∧ (qs nav_toggle_sel p = None ∨ qs nav_list_sel p = None →
     setupNavToggle p = [])
  ∧ (qsa blank_anchors_sel p = [] → secureExternalLinks p = p)
  ∧ (sections p = [] ∨ qsa hash_links_sel p = [] →
     setupActiveLinkObserver p = (None, Normal)).
Proof.
  split_and!.
  - intros H. unfold setYear. by rewrite H.
  - intros [H|H]; unfold setupNavToggle; rewrite H; [done|].
    by destruct (qs nav_toggle_sel p).
  - intros H. unfold secureExternalLinks. by rewrite H.
  - intros [H|H]; unfold setupActiveLinkObserver; rewrite H; [done|].
    by rewrite orb_true_r.
Qed.

(** * The nav links stay what they are *)

Section Shapes.

Implicit Types (p q : page) (e : element).

Lemma Assoc_get_remove_ne k k' l :
  k ≠ k' → Assoc.get k' (Assoc.remove k l) = Assoc.get k' l.
Proof.
  intros Hne. unfold Assoc.remove. induction l as [|[k0 v0] r IH]; [done|].
  rewrite filter_cons. simpl. destruct (decide (k0 ≠ k)) as [H0|H0]; simpl.
  - by rewrite IH.
  - apply dec_stable in H0 as ->. by rewrite decide_False.
Qed.

Lemma class_contains_toggle_ne c c' e :
  c ≠ c' → class_contains c' (class_toggle c e) = class_contains c' e.
Proof.
  intros Hne. unfold class_toggle. destruct (class_contains c e).
  - by apply class_contains_remove_ne.
  - by apply class_contains_add_ne.
Qed.

Lemma getAttribute_class_toggle a c e :
  getAttribute a (class_toggle c e) = getAttribute a e.
Proof.
  unfold class_toggle. destruct (class_contains c e); [done|].
  apply getAttribute_class_add.
Qed.

(** Element operations of the script that keep the marks. *)
Lemma markShape_toggle_open e : markShape (class_toggle "open" e) = markShape e.
Proof.
  unfold markShape, linkShape.
  by rewrite !class_contains_toggle_ne, getAttribute_class_toggle.
Qed.

Lemma markShape_remove_open e : markShape (class_remove "open" e) = markShape e.
Proof.
  unfold markShape, linkShape.
  rewrite !class_contains_remove_ne by done. done.
Qed.

Lemma markShape_setAttribute a v e :
  a ≠ "href" → markShape (setAttribute a v e) = markShape e.
Proof.
  intros Ha. unfold markShape, linkShape.
  by rewrite getAttribute_set_ne.
Qed.

Lemma markShape_removeAttribute a e :
  a ≠ "href" → markShape (removeAttribute a e) = markShape e.
Proof.
  intros Ha. unfold markShape, linkShape. do 2 f_equal.
  by apply Assoc_get_remove_ne.
Qed.

Lemma markShape_harden e : markShape (harden e) = markShape e.
Proof.
  unfold harden. destruct (negb _); [|done].
  by apply markShape_setAttribute.
Qed.

Lemma linkShape_remove_active e :
  linkShape (class_remove "active" e) = linkShape e.
Proof.
  unfold linkShape. by rewrite class_contains_remove_ne.
Qed.

Lemma linkShape_add_active e : linkShape (class_add "active" e) = linkShape e.
Proof.
  unfold linkShape.
  by rewrite class_contains_add_ne, getAttribute_class_add.
Qed.

Lemma linkShape_of_markShape (f : element → element) :
  (∀ e, markShape (f e) = markShape e) → ∀ e, linkShape (f e) = linkShape e.
Proof. intros H e. exact (f_equal fst (H e)). Qed.

(** Pages. *)
Lemma keeps_trans {A} (g : element → A) p q r :
  keeps g p q → keeps g q r → keeps g p r.
Proof. unfold keeps. congruence. Qed.

Lemma keeps_elements {A} (g : element → A) p q :
  elements q = elements p → keeps g p q.
Proof. unfold keeps. by intros ->. Qed.

Lemma keeps_update {A} (g : element → A) n f p :
  (∀ e, g (f e) = g e) → keeps g p (update n f p).
Proof.
  intros Hf. unfold keeps. apply list_eq. intros i.
  rewrite !list_lookup_fmap, lookup_update.
  destruct (decide (i = n)); [|done].
  destruct (elements p !! i); simpl; [|done]. by rewrite Hf.
Qed.

Lemma keeps_forEach_update {A} (g : element → A) ns f p :
  (∀ e, g (f e) = g e) → keeps g p (forEach ns (λ n, update n f) p).
Proof.
  intros Hf. unfold forEach. revert p.
  induction ns as [|n ns IH]; intros p; [done|]. simpl.
  eapply keeps_trans; [by apply keeps_update | apply IH].
Qed.

Lemma keeps_link_of_mark p q : keeps markShape p q → keeps linkShape p q.
Proof.
  unfold keeps. intros H.
  change linkShape with (fst ∘ markShape).
  by rewrite !list_fmap_compose, H.
Qed.

(** A query sees what the selector sees of each element. *)
Lemma select_from_fmap_ext (f g : element → bool) els els' i :
  f <$> els = g <$> els' → select_from i f els = select_from i g els'.
Proof.
  revert els' i. induction els as [|x r IH]; intros [|y r'] i H;
    simplify_eq/=; [done|].
  rewrite (IH r' (S i)) by done. by rewrite H.
Qed.

Lemma qsa_of_shape {A} (g : element → A) (h : A → bool) sel p q :
  (∀ e, matches sel e = h (g e)) → keeps g p q → qsa sel q = qsa sel p.
Proof.
  intros Hm Hk. unfold qsa. apply select_from_fmap_ext.
  rewrite (list_fmap_ext (matches sel) (h ∘ g) (elements q))
    by (intros; apply Hm).
  rewrite (list_fmap_ext (matches sel) (h ∘ g) (elements p))
    by (intros; apply Hm).
  by rewrite !list_fmap_compose, Hk.
Qed.

Lemma keeps_nav_links p q :
  keeps linkShape p q → qsa nav_link_sel q = qsa nav_link_sel p.
Proof.
  apply (qsa_of_shape linkShape fst). intros e. apply matches_nav_link.
Qed.

Lemma keeps_hash_links p q :
  keeps linkShape p q → qsa hash_links_sel q = qsa hash_links_sel p.
Proof.
  apply (qsa_of_shape linkShape
           (λ s, s.1 && from_option (starts_with "#") false s.2)).
  intros e. apply matches_hash_links.
Qed.

Lemma keeps_active_links p q :
  keeps markShape p q →
  qsa active_nav_links_sel q = qsa active_nav_links_sel p.
Proof.
  apply (qsa_of_shape markShape (λ s, s.1.1 && s.2)).
  intros e. apply matches_active_nav_links.
Qed.

(** The routines and listeners that do not deal with the active link. *)
Lemma closeNav_keeps toggle list p : keeps markShape p (closeNav toggle list p).
Proof.
  unfold closeNav. eapply keeps_trans; apply keeps_update; intros e.
  - apply markShape_remove_open.
  - by apply markShape_setAttribute.
Qed.

Lemma onToggleClick_keeps toggle list p :
  keeps markShape p (onToggleClick toggle list p).
Proof.
  unfold onToggleClick. eapply keeps_trans; apply keeps_update; intros e.
  - apply markShape_toggle_open.
  - by apply markShape_setAttribute.
Qed.

Lemma revealCallback_keeps entries p :
  keeps markShape p (revealCallback entries p).
Proof.
  unfold revealCallback. revert p.
  induction entries as [|en entries IH]; intros p; [done|]. simpl.
  eapply keeps_trans; [|apply IH].
  unfold revealStep. destruct (isIntersecting en); [|done].
  change (keeps markShape p (update (entryTarget en) reveal p)).
  by apply keeps_update.
Qed.

Lemma removeTabindex_keeps n p : keeps markShape p (removeTabindex n p).
Proof.
  apply keeps_update. intros e. by apply markShape_removeAttribute.
Qed.

Lemma setYear_keeps year p : keeps markShape p (setYear year p).
Proof. unfold setYear. destruct (qs _ _); [by apply keeps_update|done]. Qed.

Lemma quickReveal_keeps p : keeps markShape p (quickReveal p).
Proof.
  unfold quickReveal. destruct (negb _).
  - by apply keeps_forEach_update.
  - apply keeps_trans with (forEach (qsa reveal_items_sel p)
                              (λ el, update el hide) p).
    + by apply keeps_forEach_update.
    + apply keeps_elements. apply forEach_observe.
Qed.

Lemma secureExternalLinks_keeps p : keeps markShape p (secureExternalLinks p).
Proof. apply keeps_forEach_update, markShape_harden. Qed.

Lemma enhanceAccessibility_keeps p :
  keeps markShape p (enhanceAccessibility p).1.
Proof.
  unfold enhanceAccessibility. cbn [fst].
  apply keeps_forEach_update. intros e. by apply markShape_setAttribute.
Qed.

(** Those that do. *)
Lemma setActiveSection_keeps links sectionId p :
  keeps linkShape p (setActiveSection links sectionId p).
Proof.
  unfold setActiveSection, clearActiveStates.
  set (p1 := forEach links _ p).
  assert (keeps linkShape p p1) as H1
    by apply keeps_forEach_update, linkShape_remove_active.
  destruct (qs _ p1); [|done].
  eapply keeps_trans; [exact H1|].
  apply keeps_update, linkShape_add_active.
Qed.

End Shapes.

Create HintDb keeps discriminated.

#[global] Hint Resolve closeNav_keeps onToggleClick_keeps revealCallback_keeps
  removeTabindex_keeps setYear_keeps quickReveal_keeps
  secureExternalLinks_keeps enhanceAccessibility_keeps
  setActiveSection_keeps keeps_link_of_mark : keeps.

(** * At most one active link, at every point *)

Section Invariant.

Variable parseSelector : string → option selector.

Implicit Types (p q : page) (inst : installed).

Lemma onSkipLinkClick_elements skipLink p :
  elements (onSkipLinkClick parseSelector skipLink p).1 = elements p.
Proof.
  unfold onSkipLinkClick. destruct (parseSelector _); [|done].
  by destruct (qs _ _).
Qed.

Lemma onNavLinkClick_keeps link p :
  keeps linkShape p (onNavLinkClick parseSelector link p).1.
Proof.
  unfold onNavLinkClick.
  destruct (attr "href" link (record PreventDefault p)); [|done].
  destruct (parseSelector _); [|done].
  destruct (qs _ _) as [t|]; [|done]. cbn [fst].
  set (p0 := record PreventDefault p).
  set (p1 := forEach _ _ p0).
  assert (keeps linkShape p p1) as H1.
  { apply keeps_trans with p0; [done|].
    apply keeps_forEach_update, linkShape_remove_active. }
  set (p2 := update link (class_add "active") p1).
  assert (keeps linkShape p p2) as H2.
  { eapply keeps_trans; [exact H1|].
    apply keeps_update, linkShape_add_active. }
  eapply keeps_trans; [exact H2|].
  apply (keeps_update linkShape t (setAttribute "tabindex" "-1")
           (record (ScrollIntoView t) p2)).
  apply linkShape_of_markShape. intros e. by apply markShape_setAttribute.
Qed.

Lemma handle_keeps_marks l e p :
  (∀ link, l ≠ NavLinkClick link) →
  keeps markShape p (handle parseSelector l e p).1.
Proof.
  intros Hl. destruct l as [t li|t li|t li|t li|s|link|c]; cbn [handle fst].
  - auto with keeps.
  - unfold onListClick. destruct (hasClass _ _ _); [auto with keeps|done].
  - unfold onOutsideClick. destruct (_ && _); [auto with keeps|done].
  - unfold onEscapeKeydown. destruct (_ && _); [|done].
    apply (closeNav_keeps t li p).
  - apply keeps_elements, onSkipLinkClick_elements.
  - by destruct (Hl link).
  - unfold onCardKeydown. by destruct (_ || _).
Qed.



Lemma init_installed year p0 p1 inst :
  init year p0 = (p1, inst, Normal) →
  keeps markShape p0 p1 ∧ installed_for p1 inst.
Proof.
  unfold init.
  set (py := setYear year p0).
  set (pe := secureExternalLinks (quickReveal py)).
  destruct (setupActiveLinkObserver py) as [spy [|x]] eqn:Hspy; [|done].
  destruct (enhanceAccessibility pe) as [p' acc] eqn:Hacc.
  intros [= <- <-].
  assert (keeps markShape py pe) as Hpe.
  { eapply keeps_trans; [apply quickReveal_keeps|].
    apply secureExternalLinks_keeps. }
  assert (keeps markShape pe p') as Hp'.
  { replace p' with (enhanceAccessibility pe).1 by by rewrite Hacc.
    apply enhanceAccessibility_keeps. }
  split.
  { eapply keeps_trans; [apply setYear_keeps|].
    eapply keeps_trans; [exact Hpe | exact Hp']. }
  split; cbn [listeners scrollSpy].
  - intros r link Hr Hc.
    rewrite (keeps_nav_links pe p') by by apply keeps_link_of_mark.
    assert (acc = (enhanceAccessibility pe).2) as -> by by rewrite Hacc.
    unfold enhanceAccessibility in Hr. cbn [snd] in Hr.
    rewrite !elem_of_app in Hr. destruct Hr as [Hr|[Hr|[Hr|Hr]]].
    + unfold setupNavToggle in Hr.
      destruct (qs nav_toggle_sel py), (qs nav_list_sel py);
        try (by apply elem_of_nil in Hr).
      rewrite !elem_of_cons in Hr.
      destruct Hr as [->|[->|[->|[->|Hr]]]];
        [discriminate Hc..|by apply elem_of_nil in Hr].
    + destruct (qs skip_link_sel pe); [|by apply elem_of_nil in Hr].
      apply list_elem_of_singleton in Hr as ->. discriminate Hc.
    + apply list_elem_of_fmap in Hr as (l & -> & Hl).
      cbn [callback] in Hc. by injection Hc as <-.
    + apply list_elem_of_fmap in Hr as (c & -> & _). discriminate Hc.
  - intros links secs ->.
    rewrite (keeps_hash_links py p')
      by (apply keeps_link_of_mark; eapply keeps_trans; eauto).
    unfold setupActiveLinkObserver in Hspy.
    destruct (_ || _); [done|].
    destruct (hasIntersectionObserver py); [|done].
    by injection Hspy as <- _.
Qed.


End Invariant.

(** * Statements that fail as written *)


(** C8 fails as stated: on [staleAriaPage] the Escape listener finds the list
    closed and writes nothing, so [aria-expanded] still says ['true'] when
    the listener is done. *)
Lemma stale_aria_survives_escape :
  qs nav_toggle_sel staleAriaPage = Some 0%nat
  ∧ qs nav_list_sel staleAriaPage = Some 1%nat
  ∧ ¬ aria_matches_open 0 1
        (onEscapeKeydown 0 1 (mkEvent 2 "Escape") staleAriaPage).
Proof.
  split_and!; [reflexivity|reflexivity|].
  intros [H _]. specialize (H eq_refl). vm_compute in H. discriminate.
Qed.

(** * The statements at work on [samplePage] *)

Lemma toggle_click_flips_open_witness :
  qs nav_toggle_sel samplePage = Some 0%nat
  ∧ qs nav_list_sel samplePage = Some 1%nat
  ∧ hasClass "open" 1 (onToggleClick 0 1 samplePage)
    = negb (hasClass "open" 1 samplePage)
  ∧ hasClass "open" 1 (onToggleClick 0 1 (onToggleClick 0 1 samplePage))
    = hasClass "open" 1 samplePage.
Proof.
  split; [reflexivity|]. split; [reflexivity|].
  destruct (toggle_click_flips_open samplePage 0 1 eq_refl eq_refl)
    as (_ & H1 & _ & H2).
  split; [exact H1 | exact H2].
Defined.

Lemma nav_listeners_keep_aria_in_step_witness :
  qs nav_toggle_sel samplePage = Some 0%nat
  ∧ qs nav_list_sel samplePage = Some 1%nat
  ∧ hasClass "nav__link" 2 samplePage = true
  ∧ aria_matches_open 0 1 (onToggleClick 0 1 samplePage)
  ∧ aria_matches_open 0 1 (onListClick 0 1 (mkEvent 2 "") samplePage).
Proof.
  split; [reflexivity|]. split; [reflexivity|]. split; [reflexivity|].
  destruct (nav_listeners_keep_aria_in_step samplePage 0 1 (mkEvent 2 "")
              eq_refl eq_refl) as (H1 & H2 & _).
  split; [exact H1 | exact (H2 eq_refl)].
Defined.

Lemma escape_keydown_only_when_open_witness :
  hasClass "open" 1 (onToggleClick 0 1 samplePage) = true
  ∧ hasClass "open" 1
      (onEscapeKeydown 0 1 (mkEvent 7 "Escape") (onToggleClick 0 1 samplePage))
    = false
  ∧ attr "aria-expanded" 0
      (onEscapeKeydown 0 1 (mkEvent 7 "Escape") (onToggleClick 0 1 samplePage))
    = Some "false"
  ∧ onEscapeKeydown 0 1 (mkEvent 7 "Escape") samplePage = samplePage.
Proof.
  split; [reflexivity|].
  destruct (escape_keydown_only_when_open (onToggleClick 0 1 samplePage) 0 1
              (mkEvent 7 "Escape")) as (_ & _ & H).
  destruct (H eq_refl eq_refl (ex_intro _ _ eq_refl)) as (H1 & H2 & _).
  destruct (escape_keydown_only_when_open samplePage 0 1 (mkEvent 7 "Escape"))
    as (H0 & _).
  split; [exact H1|]. split; [exact H2 | exact (H0 eq_refl)].
Defined.




Lemma blank_anchors_get_noopener_witness :
  elements samplePage !! 8%nat
  = Some (elem "a" (Some 6%nat) [] [("target", "_blank"); ("rel", "nofollow")])
  ∧ elements (secureExternalLinks samplePage) !! 8%nat
    = Some (elem "a" (Some 6%nat) []
              [("target", "_blank"); ("rel", "nofollow noopener")])
  ∧ ∃ v, attr "rel" 9 (secureExternalLinks samplePage) = Some v
         ∧ regex_test_ci "noopener" v = true.
Proof.
  split; [reflexivity|].
  destruct (blank_anchors_get_noopener samplePage) as (H1 & H2 & _).
  split; [exact (H2 8%nat _ eq_refl)|].
  assert (9 ∈ qsa blank_anchors_sel (secureExternalLinks samplePage))%nat
    as Hin by (vm_compute; do 2 constructor).
  exact (H1 9%nat _ Hin eq_refl).
Defined.


Lemma quickReveal_hides_then_reveals_once_witness :
  hasIntersectionObserver samplePage = true
  ∧ (5 ∈ qsa reveal_items_sel samplePage)%nat
  ∧ styleOf "opacity" 5 (quickReveal samplePage) = Some "0"
  ∧ (5 ∈ revealObserved (quickReveal samplePage))%nat
  ∧ deliverable (quickReveal samplePage)
      [[mkEntry 5 true 1; mkEntry 7 false 0]; [mkEntry 7 true (1 # 2)]]
  ∧ revealed 5 (revealCallback [mkEntry 5 true 1; mkEntry 7 false 0]
                  (quickReveal samplePage))
  ∧ (length (filter (λ b, reveals 5 b = true)
               [[mkEntry 5 true 1; mkEntry 7 false 0];
                [mkEntry 7 true (1 # 2)]]) ≤ 1)%nat.
Proof.
  assert (5 ∈ qsa reveal_items_sel samplePage)%nat as Hin
    by (vm_compute; constructor).
  assert (deliverable (quickReveal samplePage)
            [[mkEntry 5 true 1; mkEntry 7 false 0]; [mkEntry 7 true (1 # 2)]])
    as Hd.
  { cbn [deliverable]. split_and!; [|  |done].
    - repeat constructor; vm_compute; repeat constructor.
    - repeat constructor; vm_compute; repeat constructor. }
  destruct (quickReveal_hides_then_reveals_once samplePage)
    as (_ & H2 & _ & H4 & _ & H6).
  destruct (H2 eq_refl 5%nat Hin) as (S1 & _ & S3).
  split; [reflexivity|]. split; [exact Hin|]. split; [exact S1|].
  split; [exact S3|]. split; [exact Hd|]. split.
  - exact (proj2 (H4 [mkEntry 5 true 1; mkEntry 7 false 0]
                     (quickReveal samplePage) 5%nat eq_refl)
                 (ex_intro _ _ eq_refl)).
  - exact (H6 _ (quickReveal samplePage) 5%nat Hd).
Defined.

(** * The section the scroll spy selects *)

Section ScrollSpy.

Implicit Types (p : page) (v : layout) (l : list entry) (secs : list node).

Lemma length_insertByRatio x l : length (insertByRatio x l) = S (length l).
Proof.
  induction l as [|y r IH]; [done|]. simpl.
  destruct (Qlt_le_dec _ _); simpl; by rewrite ?IH.
Qed.

Lemma length_sortByRatio l : length (sortByRatio l) = length l.
Proof.
  induction l as [|x l IH]; [done|]. simpl.
  by rewrite length_insertByRatio, IH.
Qed.

(** The head of the sorted list: the first entry of [l] no entry beats. *)
Lemma sortByRatio_head l m rest :
  sortByRatio l = m :: rest →
  ∃ pre post,
    l = pre ++ m :: post
    ∧ (∀ x, x ∈ pre → (intersectionRatio x < intersectionRatio m)%Q)
    ∧ (∀ x, x ∈ post → (intersectionRatio x <= intersectionRatio m)%Q).
Proof.
  revert m rest. induction l as [|x l IH]; intros m rest; [done|].
  simpl. destruct (sortByRatio l) as [|y r] eqn:E.
  - assert (l = []) as ->.
    { apply length_zero_iff_nil. by rewrite <- length_sortByRatio, E. }
    intros [= <- <-]. exists [], []. split_and!; [done|..];
      intros z Hz; by apply elem_of_nil in Hz.
  - destruct (IH y r eq_refl) as (pre & post & -> & Hpre & Hpost).
    simpl. destruct (Qlt_le_dec (intersectionRatio x) (intersectionRatio y))
      as [Hlt|Hle]; intros [= <- <-].
    + exists (x :: pre), post. split_and!; [done| |done].
      intros z [->|Hz]%elem_of_cons; [done|by apply Hpre].
    + exists [], (pre ++ y :: post). split_and!; [done|..].
      * intros z Hz. by apply elem_of_nil in Hz.
      * intros z [Hz|[->|Hz]%elem_of_cons]%elem_of_app.
        -- apply Qlt_le_weak. eapply Qlt_le_trans; [by apply Hpre|done].
        -- done.
        -- eapply Qle_trans; [by apply Hpost|done].
Qed.

Lemma observer_callback_cases links secs entries v p :
  (∃ m, m ∈ entries
        ∧ observerCallback links secs entries v p
          = setActiveSection links (idOf (entryTarget m) p) p)
  ∨ observerCallback links secs entries v p
    = setActiveSection links (currentSection secs v p) p.
Proof.
  unfold observerCallback.
  destruct (sortByRatio (filter (λ e, isIntersecting e) entries))
    as [|m rest] eqn:E; [by right|left].
  exists m. split; [|done].
  destruct (sortByRatio_head _ m rest E) as (pre & post & H1 & _).
  assert (m ∈ filter (λ e, isIntersecting e) entries) as Hm.
  { rewrite H1. apply elem_of_app. right. by left. }
  by apply list_elem_of_filter in Hm as [_ Hm].
Qed.

(** X1: when some entry intersects, the observer callback activates the
    section of the first intersecting entry whose ratio no other
    intersecting entry exceeds; when none does, it activates the section its
    fallback computes. *)
Theorem observer_follows_most_visible links secs entries v p :
  (filter (λ e, isIntersecting e) entries = [] →
   observerCallback links secs entries v p
   = setActiveSection links (currentSection secs v p) p)
  ∧ (filter (λ e, isIntersecting e) entries ≠ [] →
     ∃ pre m post,
       filter (λ e, isIntersecting e) entries = pre ++ m :: post
       ∧ (∀ x, x ∈ pre → (intersectionRatio x < intersectionRatio m)%Q)
       ∧ (∀ x, x ∈ post → (intersectionRatio x <= intersectionRatio m)%Q)
       ∧ observerCallback links secs entries v p
         = setActiveSection links (idOf (entryTarget m) p) p).
Proof.
  unfold observerCallback. split.
  - by intros ->.
  - intros Hne.
    destruct (sortByRatio (filter (λ e, isIntersecting e) entries))
      as [|m rest] eqn:E.
    + exfalso. apply Hne, length_zero_iff_nil.
      by rewrite <- length_sortByRatio, E.
    + destruct (sortByRatio_head _ m rest E) as (pre & post & H1 & H2 & H3).
      exists pre, m, post. by rewrite H1.
Qed.

Lemma qs_Id_idOf p id n : qs [[Id id]] p = Some n → idOf n p = id.
Proof.
  intros (e & He & Hm)%qs_Some. unfold idOf, id_of. rewrite He. simpl.
  unfold matches in Hm. cbn [existsb forallb matches_simple] in Hm.
  rewrite andb_true_r, orb_false_r in Hm.
  apply bool_decide_eq_true in Hm. by rewrite Hm.
Qed.

Lemma elem_of_sections p n :
  n ∈ sections p ↔ ∃ id, id ∈ sectionIds ∧ qs [[Id id]] p = Some n.
Proof. unfold sections. apply list_elem_of_omap. Qed.

Lemma sections_idOf p n : n ∈ sections p → idOf n p ∈ sectionIds.
Proof.
  intros (id & Hid & Hq)%elem_of_sections. by rewrite (qs_Id_idOf p id n).
Qed.

Lemma hero_known : "hero" ∈ sectionIds.
Proof. by left. Qed.

Lemma currentSection_known secs v p :
  (∀ n, n ∈ secs → idOf n p ∈ sectionIds) →
  currentSection secs v p ∈ sectionIds.
Proof.
  unfold currentSection. generalize "hero" hero_known.
  induction secs as [|s secs IH]; intros cur Hcur Hsecs; [done|]. simpl.
  apply IH.
  - destruct (Qle_bool _ _); [apply Hsecs; by left|done].
  - intros n Hn. apply Hsecs. by right.
Qed.

Lemma nearestSection_known secs v p :
  (∀ n, n ∈ secs → idOf n p ∈ sectionIds) →
  nearestSection secs v p ∈ sectionIds.
Proof.
  unfold nearestSection. generalize (@None Q). generalize "hero" hero_known.
  induction secs as [|s secs IH]; intros cur Hcur md Hsecs; [done|]. simpl.
  destruct (_ && _).
  - apply IH; [apply Hsecs; by left|]. intros n Hn. apply Hsecs. by right.
  - apply IH; [done|]. intros n Hn. apply Hsecs. by right.
Qed.

(** X2: the sections the scroll spy works on carry the six known ids, and
    every id the observer callback or the animation-frame callback hands to
    [setActiveSection] is one of them. *)
Theorem scroll_spy_passes_known_ids p v links :
  (∀ n, n ∈ sections p →
        idOf n p ∈ sectionIds ∧ qs [[Id (idOf n p)]] p = Some n)
  ∧ currentSection (sections p) v p ∈ sectionIds
  ∧ nearestSection (sections p) v p ∈ sectionIds
  ∧ ∀ entries,
      (∀ en, en ∈ entries → entryTarget en ∈ sections p) →
      ∃ id, id ∈ sectionIds
            ∧ observerCallback links (sections p) entries v p
              = setActiveSection links id p.
Proof.
  split_and!.
  - intros n Hn. split; [by apply sections_idOf|].
    apply elem_of_sections in Hn as (id & _ & Hq).
    by rewrite (qs_Id_idOf p id n).
  - apply currentSection_known, sections_idOf.
  - apply nearestSection_known, sections_idOf.
  - intros entries Hent.
    destruct (observer_callback_cases links (sections p) entries v p)
      as [[m [Hm ->]]| ->].
    + exists (idOf (entryTarget m) p). split; [|done].
      apply sections_idOf, Hent, Hm.
    + exists (currentSection (sections p) v p). split; [|done].
      apply currentSection_known, sections_idOf.
Qed.

(** X3: the fallback of the observer callback names the last section, in
    the order of [sectionIds], whose test succeeds, and ['hero'] when none
    does. *)
Theorem fallback_names_last_passed secs v p :
  currentSection secs v p
  = from_option (λ s, idOf s p) "hero"
      (last (filter (λ s, passed v p s) secs)).
Proof.
  unfold currentSection. cbv zeta.
  induction secs as [|s secs IH] using rev_ind; [done|].
  rewrite foldl_snoc, filter_app, IH. clear IH.
  change (Qle_bool (rectTop v s + scrollY v - headerHeight 80 v p - 100)
            (scrollY v)) with (passed v p s).
  rewrite filter_cons, filter_nil.
  destruct (passed v p s) eqn:Hs.
  - rewrite decide_True by done. by rewrite last_snoc.
  - rewrite decide_False by (by intros []). by rewrite app_nil_r.
Qed.

(** Membership in a list extended at its end. *)
Ltac snoc_cases H :=
  apply elem_of_app in H as [H|H];
  [|apply list_elem_of_singleton in H as ->].

(** What the loop of the animation-frame callback has found after the
    sections [secs]. *)
Lemma nearest_fold secs v p (F : string * option Q → nat → string * option Q) :
  (∀ a m s,
     F (a, m) s
     = if (match m with
           | Some d => if Qlt_le_dec (distanceTo v p s) d then true else false
           | None => true
           end) && eligible v p s
       then (idOf s p, Some (distanceTo v p s)) else (a, m)) →
  match (foldl F ("hero", None) secs).2 with
  | None =>
      (foldl F ("hero", None) secs).1 = "hero"
      ∧ ∀ s, s ∈ secs → eligible v p s = false
  | Some d =>
      ∃ s, s ∈ secs ∧ eligible v p s = true
           ∧ (foldl F ("hero", None) secs).1 = idOf s p
           ∧ d = distanceTo v p s
           ∧ ∀ s', s' ∈ secs → eligible v p s' = true →
                   (distanceTo v p s <= distanceTo v p s')%Q
  end.
Proof.
  intros HF. induction secs as [|x secs IH] using rev_ind.
  - simpl. split; [done|]. intros s Hs. by apply elem_of_nil in Hs.
  - rewrite foldl_snoc. destruct (foldl F ("hero", None) secs) as [a m].
    rewrite HF. simpl in IH. destruct m as [d|].
    + destruct IH as (s & Hs & He & Ha & -> & Hmin).
      destruct (Qlt_le_dec (distanceTo v p x) (distanceTo v p s)) as [Hlt|Hle];
        [destruct (eligible v p x) eqn:Hx|]; simpl.
      * exists x. split_and!; [apply elem_of_app; right; by left|done..|].
        intros s' Hs' Hel; snoc_cases Hs'.
        -- apply Qlt_le_weak. eapply Qlt_le_trans; [done|by apply Hmin].
        -- apply Qle_refl.
      * exists s. split_and!; [apply elem_of_app; by left|done..|].
        intros s' Hs' Hel; snoc_cases Hs';
          [by apply Hmin|congruence].
      * exists s. split_and!; [apply elem_of_app; by left|done..|].
        intros s' Hs' Hel; snoc_cases Hs';
          [by apply Hmin|done].
    + destruct IH as [-> Hnone]. destruct (eligible v p x) eqn:Hx; simpl.
      * exists x. split_and!; [apply elem_of_app; right; by left|done..|].
        intros s' Hs' Hel; snoc_cases Hs'.
        -- rewrite Hnone in Hel by done. discriminate.
        -- apply Qle_refl.
      * split; [done|].
        intros s Hs; snoc_cases Hs; auto.
Qed.

(** X4: among the sections whose top lies at most 100 below the header, the
    animation-frame callback names one that is nearest to the line 50 below
    the header; it names ['hero'] when there is no such section. *)
Theorem scroll_names_nearest_section secs v p :
  ((∀ s, s ∈ secs → eligible v p s = false) →
   nearestSection secs v p = "hero")
  ∧ (∀ s0, s0 ∈ secs → eligible v p s0 = true →
     ∃ s, s ∈ secs ∧ eligible v p s = true
          ∧ nearestSection secs v p = idOf s p
          ∧ ∀ s', s' ∈ secs → eligible v p s' = true →
                  (distanceTo v p s <= distanceTo v p s')%Q).
Proof.
  unfold nearestSection. cbv zeta.
  match goal with |- context [foldl ?F0 _ secs] => set (F := F0) end.
  assert (∀ a m s,
     F (a, m) s
     = if (match m with
           | Some d => if Qlt_le_dec (distanceTo v p s) d then true else false
           | None => true
           end) && eligible v p s
       then (idOf s p, Some (distanceTo v p s)) else (a, m)) as HF by done.
  pose proof (nearest_fold secs v p F HF) as H. clearbody F.
  destruct (foldl F ("hero", None) secs) as [a [d|]]; simpl in *.
  - destruct H as (s & Hs & He & -> & -> & Hmin). split.
    + intros Hnone. rewrite Hnone in He by done. discriminate.
    + intros _ _ _. exists s. by split_and!.
  - destruct H as [-> Hnone]. split; [done|].
    intros s0 Hs0 He. rewrite Hnone in He by done. discriminate.
Qed.

End ScrollSpy.

(** * Closing the navigation *)

Section Closing.

Implicit Types (p q : page) (e : event) (toggle list : node).

Lemma keeps_lookup {A} (g : element → A) p q n :
  keeps g p q → g <$> elements q !! n = g <$> elements p !! n.
Proof. unfold keeps. intros H. by rewrite <- !list_lookup_fmap, H. Qed.

Lemma keeps_is_Some {A} (g : element → A) p q n :
  keeps g p q → is_Some (elements p !! n) → is_Some (elements q !! n).
Proof.
  intros H%(keeps_lookup g p q n) [x Hx]. rewrite Hx in H.
  destruct (elements q !! n); [eauto|done].
Qed.

Lemma closeNav_closed toggle list p :
  hasClass "open" list (closeNav toggle list p) = false.
Proof.
  destruct (elements p !! list) as [el|] eqn:Hl.
  - by apply (closeNav_open toggle list p el).
  - unfold closeNav, hasClass. rewrite !lookup_update, Hl.
    by repeat case_decide.
Qed.

(** X5: Escape acts once.  Pressed again, or pressed after any listener has
    closed the navigation, it leaves the page as it is, so that [focus] is
    not called a second time. *)
Theorem escape_acts_once toggle list e p :
  onEscapeKeydown toggle list e (onEscapeKeydown toggle list e p)
  = onEscapeKeydown toggle list e p
  ∧ ∀ e', onEscapeKeydown toggle list e' (closeNav toggle list p)
          = closeNav toggle list p.
Proof.
  assert (∀ e' c, onEscapeKeydown toggle list e'
                    (record c (closeNav toggle list p))
                  = record c (closeNav toggle list p)) as Hrec.
  { intros e' c. unfold onEscapeKeydown at 1.
    change (hasClass "open" list (record c (closeNav toggle list p)))
      with (hasClass "open" list (closeNav toggle list p)).
    by rewrite closeNav_closed, andb_false_r. }
  split.
  - unfold onEscapeKeydown at 2 3.
    destruct (bool_decide (key e = "Escape") && hasClass "open" list p) eqn:H.
    + apply Hrec.
    + unfold onEscapeKeydown. by rewrite H.
  - intros e'. unfold onEscapeKeydown.
    by rewrite closeNav_closed, andb_false_r.
Qed.

(** [contains] reads the parents only. *)
Lemma climbs_to_ext fuel (els els' : list element) a b :
  parentNode <$> els' = parentNode <$> els →
  climbs_to fuel els' a b = climbs_to fuel els a b.
Proof.
  intros H. revert b. induction fuel as [|fuel IH]; intros b; [done|].
  simpl. f_equal.
  assert (els' !! b ≫= parentNode = els !! b ≫= parentNode) as ->.
  { apply (f_equal (λ l, l !! b)) in H. rewrite !list_lookup_fmap in H.
    destruct (els' !! b), (els !! b); simplify_eq/=; done. }
  destruct (els !! b ≫= parentNode); [apply IH|done].
Qed.

Lemma contains_keeps p q a b :
  keeps parentNode p q → contains a b q = contains a b p.
Proof. intros H. by apply climbs_to_ext. Qed.

Lemma parentNode_class_toggle c (x : element) :
  parentNode (class_toggle c x) = parentNode x.
Proof.
  unfold class_toggle. destruct (class_contains c x) eqn:H; [done|].
  unfold class_add. by rewrite H.
Qed.

Lemma closeNav_keeps_parents toggle list p :
  keeps parentNode p (closeNav toggle list p).
Proof. unfold closeNav. eapply keeps_trans; by apply keeps_update. Qed.

Lemma onToggleClick_keeps_parents toggle list p :
  keeps parentNode p (onToggleClick toggle list p).
Proof.
  unfold onToggleClick. eapply keeps_trans; apply keeps_update; [|done].
  intros x. apply parentNode_class_toggle.
Qed.

Lemma onListClick_keeps_parents toggle list e p :
  keeps parentNode p (onListClick toggle list e p).
Proof.
  unfold onListClick. destruct (hasClass _ _ _); [|done].
  apply closeNav_keeps_parents.
Qed.

(** X6: the outside-click listener of the document spares clicks inside the
    toggle or the list: it leaves the page as it is, also after the listener
    of the toggle or of the list has handled the same click, so that it does
    not close a navigation the toggle has just opened. *)
Theorem outside_click_spares_inside_clicks toggle list e p :
  contains toggle (target e) p = true ∨ contains list (target e) p = true →
  onOutsideClick toggle list e p = p
  ∧ onOutsideClick toggle list e (onToggleClick toggle list p)
    = onToggleClick toggle list p
  ∧ onOutsideClick toggle list e (onListClick toggle list e p)
    = onListClick toggle list e p.
Proof.
  intros Hin.
  assert (∀ q, keeps parentNode p q → onOutsideClick toggle list e q = q)
    as Hq.
  { intros q Hk. unfold onOutsideClick.
    rewrite !(contains_keeps p q) by done.
    destruct Hin as [-> | ->]; [done|]. by rewrite andb_false_r. }
  split_and!.
  - by apply Hq.
  - apply Hq, onToggleClick_keeps_parents.
  - apply Hq, onListClick_keeps_parents.
Qed.

End Closing.

(** * What [setActiveSection] leaves *)

Section ActiveSection.

Implicit Types (p q : page) (e : element).

Lemma href_case_sensitive :
  bool_decide ("href" ∈ case_insensitive_attributes) = false.
Proof. reflexivity. Qed.

Lemma starts_with_app pre s : starts_with pre (pre +:+ s) = true.
Proof.
  induction pre as [|c pre IH]; [done|].
  change (starts_with (String c pre) (String c (pre +:+ s)) = true).
  cbn [starts_with]. by rewrite bool_decide_eq_true_2, IH.
Qed.

Lemma matches_link_of_section sectionId e :
  matches (link_of_section_sel sectionId) e
  = (linkShape e).1 && value_matches "href" ("#" +:+ sectionId) (linkShape e).2.
Proof.
  unfold matches, link_of_section_sel. cbn [existsb forallb matches_simple].
  by rewrite andb_true_r, orb_false_r.
Qed.

(** A link to a section is one of the managed links. *)
Lemma link_of_section_is_hash_link sectionId e :
  matches (link_of_section_sel sectionId) e = true →
  matches hash_links_sel e = true.
Proof.
  rewrite matches_link_of_section, matches_hash_links. unfold linkShape.
  cbn [fst snd]. intros [Hn Hv]%andb_true_iff. rewrite Hn. cbn [andb].
  unfold value_matches in Hv.
  destruct (getAttribute "href" e) as [w|]; [|done].
  rewrite href_case_sensitive in Hv. apply bool_decide_eq_true in Hv as ->.
  apply (starts_with_app "#").
Qed.

Lemma keeps_link_of_section sectionId p q :
  keeps linkShape p q →
  qs (link_of_section_sel sectionId) q = qs (link_of_section_sel sectionId) p.
Proof.
  intros H. unfold qs. f_equal. revert H.
  apply (qsa_of_shape linkShape
           (λ s, s.1 && value_matches "href" ("#" +:+ sectionId) s.2)).
  apply matches_link_of_section.
Qed.

Lemma clearActiveStates_keeps links p :
  keeps linkShape p (clearActiveStates links p).
Proof. apply keeps_forEach_update, linkShape_remove_active. Qed.

Lemma class_remove_idempotent c e :
  class_remove c (class_remove c e) = class_remove c e.
Proof.
  unfold class_remove, set_classList. cbn [classList tagName parentNode
    attributes style textContent]. f_equal.
  induction (classList e) as [|x l IH]; [done|].
  rewrite filter_cons. destruct (decide (x ≠ c)); [|done].
  rewrite filter_cons, decide_True by done. by rewrite IH.
Qed.

Lemma class_remove_add_absent c e :
  class_contains c e = false → class_remove c (class_add c e) = e.
Proof.
  intros H. unfold class_add. rewrite H.
  apply bool_decide_eq_false in H. destruct e as [t pa cl at' st tx].
  unfold class_remove, set_classList. cbn in *. f_equal.
  rewrite filter_app, filter_cons, filter_nil, decide_False, app_nil_r
    by (intros ?; done).
  induction cl as [|x cl IH]; [done|].
  apply not_elem_of_cons in H as [H1 H2].
  rewrite filter_cons, decide_True by congruence. by rewrite IH.
Qed.

Lemma cleared_idempotent e : cleared (cleared e) = cleared e.
Proof.
  unfold cleared at 1. rewrite cleared_hash_link. unfold cleared.
  destruct (matches hash_links_sel e); [|done].
  apply class_remove_idempotent.
Qed.

Lemma cleared_add_active e :
  matches hash_links_sel e = true →
  cleared (class_add "active" (cleared e)) = cleared e.
Proof.
  intros H. unfold cleared at 1.
  rewrite matches_hash_links.
  change (class_contains "nav__link" (class_add "active" (cleared e))
          && from_option (starts_with "#") false
               (getAttribute "href" (class_add "active" (cleared e))))
    with ((linkShape (class_add "active" (cleared e))).1
          && from_option (starts_with "#") false
               (linkShape (class_add "active" (cleared e))).2).
  rewrite linkShape_add_active. unfold linkShape. cbn [fst snd].
  rewrite <- matches_hash_links, cleared_hash_link, H.
  apply class_remove_add_absent.
  unfold cleared. rewrite H. apply class_contains_remove_eq.
Qed.

(** The page [setActiveSection] leaves, element by element. *)
Lemma setActiveSection_elements p sectionId :
  let links := qsa hash_links_sel p in
  elements (setActiveSection links sectionId p)
  = match qs (link_of_section_sel sectionId) p with
    | Some a => alter (class_add "active") a (cleared <$> elements p)
    | None => cleared <$> elements p
    end
  ∧ hasIntersectionObserver (setActiveSection links sectionId p)
    = hasIntersectionObserver p
  ∧ revealObserved (setActiveSection links sectionId p) = revealObserved p
  ∧ calls (setActiveSection links sectionId p) = calls p.
Proof.
  intros links. subst links. unfold setActiveSection.
  rewrite (keeps_link_of_section sectionId p _ (clearActiveStates_keeps _ p)).
  rewrite clearActiveStates_elements.
  by destruct (qs (link_of_section_sel sectionId) p).
Qed.

(** X7: [setActiveSection] leaves exactly one managed link active, the first
    nav link whose [href] is [#] followed by the section id, and none when
    there is no such link. *)
Theorem setActiveSection_marks_the_link p sectionId :
  qsa active_hash_links_sel
    (setActiveSection (qsa hash_links_sel p) sectionId p)
  = match qs (link_of_section_sel sectionId) p with
    | Some a => [a]
    | None => []
    end.
Proof.
  destruct (qs (link_of_section_sel sectionId) p) as [a|] eqn:Hq.
  - apply singleton_of_NoDup; [apply NoDup_qsa|].
    destruct (setActiveSection_elements p sectionId) as [E _].
    rewrite Hq in E. intros x. rewrite elem_of_qsa, E.
    destruct (qs_Some _ _ _ Hq) as (ea & Hea & Hma).
    split.
    + intros (e' & He' & Hm).
      destruct (decide (x = a)) as [|Hne]; [done|exfalso].
      rewrite list_lookup_alter_ne, list_lookup_fmap in He' by congruence.
      apply fmap_Some in He' as (e0 & _ & ->).
      by rewrite cleared_not_active_hash in Hm.
    + intros ->. rewrite list_lookup_alter_eq, list_lookup_fmap, Hea.
      eexists; split; [reflexivity|].
      rewrite matches_active_hash_links, class_contains_add_eq, andb_true_r.
      rewrite matches_hash_links.
      change (class_contains "nav__link" (class_add "active" (cleared ea))
              && from_option (starts_with "#") false
                   (getAttribute "href" (class_add "active" (cleared ea))))
        with ((linkShape (class_add "active" (cleared ea))).1
              && from_option (starts_with "#") false
                   (linkShape (class_add "active" (cleared ea))).2).
      rewrite linkShape_add_active. unfold linkShape. cbn [fst snd].
      rewrite <- matches_hash_links, cleared_hash_link.
      by apply (link_of_section_is_hash_link sectionId).
  - unfold setActiveSection.
    rewrite (keeps_link_of_section sectionId p _ (clearActiveStates_keeps _ p)).
    rewrite Hq. apply clearActiveStates_none_active.
Qed.

(** X8: [setActiveSection] is idempotent: called again for the same section,
    as each scroll event does, it leaves the page as it is. *)
Theorem setActiveSection_idempotent p sectionId :
  let links := qsa hash_links_sel p in
  setActiveSection links sectionId (setActiveSection links sectionId p)
  = setActiveSection links sectionId p.
Proof.
  intros links. set (q := setActiveSection links sectionId p).
  assert (keeps linkShape p q) as Hk by apply setActiveSection_keeps.
  assert (links = qsa hash_links_sel q) as Hlinks
    by (symmetry; by apply keeps_hash_links).
  destruct (setActiveSection_elements p sectionId) as (E & E1 & E2 & E3).
  fold links q in E, E1, E2, E3.
  rewrite Hlinks.
  destruct (setActiveSection_elements q sectionId) as (F & F1 & F2 & F3).
  rewrite (keeps_link_of_section sectionId p q Hk) in F.
  assert (elements (setActiveSection (qsa hash_links_sel q) sectionId q)
          = elements q) as Hel.
  { rewrite F, E. destruct (qs (link_of_section_sel sectionId) p) as [a|] eqn:Hq.
    - apply list_eq. intros i.
      destruct (qs_Some _ _ _ Hq) as (ea & Hea & Hma).
      destruct (decide (i = a)) as [->|Hne].
      + rewrite !list_lookup_alter_eq, !list_lookup_fmap,
          list_lookup_alter_eq, list_lookup_fmap, Hea. simpl.
        by rewrite (cleared_add_active ea)
          by by apply (link_of_section_is_hash_link sectionId).
      + rewrite !list_lookup_alter_ne, !list_lookup_fmap,
          list_lookup_alter_ne, list_lookup_fmap by congruence.
        destruct (elements p !! i); simpl; [|done].
        by rewrite cleared_idempotent.
    - rewrite <- list_fmap_compose. apply list_fmap_ext.
      intros i x _. apply cleared_idempotent. }
  destruct (setActiveSection (qsa hash_links_sel q) sectionId q), q.
  simpl in *. congruence.
Qed.

End ActiveSection.

(** * A click on a nav link *)

Section NavLinkClick.

Variable parseSelector : string → option selector.

Implicit Types (p q : page) (e : event) (link toggle list : node).

Lemma Assoc_get_remove_eq k l : Assoc.get k (Assoc.remove k l) = None.
Proof.
  unfold Assoc.remove. induction l as [|[k0 v0] r IH]; [done|].
  rewrite filter_cons. simpl. destruct (decide (k0 ≠ k)) as [H0|H0]; simpl.
  - by rewrite decide_False.
  - done.
Qed.

Lemma Assoc_remove_absent k l : Assoc.get k l = None → Assoc.remove k l = l.
Proof.
  unfold Assoc.remove. induction l as [|[k0 v0] r IH]; [done|]. simpl.
  destruct (decide (k0 = k)) as [->|Hne]; [done|]. intros H.
  rewrite filter_cons. simpl. rewrite decide_True by done. by rewrite IH.
Qed.

Lemma Assoc_remove_set k v l :
  Assoc.get k l = None → Assoc.remove k (Assoc.set k v l) = l.
Proof.
  unfold Assoc.remove. induction l as [|[k0 v0] r IH]; simpl.
  - intros _. rewrite filter_cons. simpl. by rewrite decide_False by tauto.
  - destruct (decide (k0 = k)) as [->|Hne]; [done|]. intros H.
    rewrite filter_cons. simpl. rewrite decide_True by done. by rewrite IH.
Qed.

(** The attributes of an element the nav-link listener has been at. *)
Lemma attributes_after_click (x : element) (b : bool) :
  attributes (if b then class_add "active" (navCleared x) else navCleared x)
  = attributes x.
Proof.
  assert (attributes (navCleared x) = attributes x) as H
    by (unfold navCleared; by destruct (matches nav_link_sel x)).
  destruct b; [|done]. unfold class_add.
  by destruct (class_contains "active" (navCleared x)).
Qed.

Lemma lookup_after_click link p href sel t n :
  attr "href" link p = Some href →
  parseSelector ("#" +:+ substring1 href) = Some sel →
  qs sel p = Some t →
  elements (onNavLinkClick parseSelector link p).1 !! n
  = (λ x, let y := if bool_decide (n = link)
                   then class_add "active" (navCleared x) else navCleared x in
          if bool_decide (n = t) then setAttribute "tabindex" "-1" y else y)
    <$> elements p !! n.
Proof.
  intros Hh Hp Hq. rewrite (onNavLinkClick_found _ link p href sel t) by done.
  cbn [fst elements].
  destruct (decide (n = t)) as [Hnt|Hnt], (decide (n = link)) as [Hnl|Hnl].
  - rewrite <- Hnt. rewrite <- Hnl.
    rewrite !list_lookup_alter_eq, list_lookup_fmap.
    destruct (elements p !! n); [simpl|done].
    by rewrite !bool_decide_eq_true_2.
  - rewrite <- Hnt.
    rewrite list_lookup_alter_eq, list_lookup_alter_ne, list_lookup_fmap
      by congruence.
    destruct (elements p !! n); [simpl|done].
    by rewrite bool_decide_eq_true_2, bool_decide_eq_false_2.
  - rewrite list_lookup_alter_ne by congruence. rewrite <- Hnl.
    rewrite list_lookup_alter_eq, list_lookup_fmap.
    destruct (elements p !! n); [simpl|done].
    rewrite (bool_decide_eq_false_2 (n = t)) by done.
    by rewrite bool_decide_eq_true_2.
  - rewrite !list_lookup_alter_ne, list_lookup_fmap by congruence.
    destruct (elements p !! n); [simpl|done].
    by rewrite !bool_decide_eq_false_2.
Qed.

(** X9: when the target of a nav link exists, the click makes it focusable
    with [tabindex="-1"], scrolls to it, focuses it and starts a timer; when
    the timer fires the target has no [tabindex] at all, whatever it had
    before, and every other attribute is the one it had.  A target without
    [tabindex] gets its attributes back unchanged. *)
Theorem nav_link_click_borrows_tabindex link p href sel t el :
  attr "href" link p = Some href →
  parseSelector ("#" +:+ substring1 href) = Some sel →
  qs sel p = Some t →
  elements p !! t = Some el →
  let q := (onNavLinkClick parseSelector link p).1 in
  attr "tabindex" t q = Some "-1"
  ∧ calls q = calls p ++ [PreventDefault; ScrollIntoView t; Focus t;
                          RemoveTabindexIn t 1000]
  ∧ attr "tabindex" t (removeTabindex t q) = None
  ∧ (∀ a, a ≠ "tabindex" → attr a t (removeTabindex t q) = attr a t p)
  ∧ (attr "tabindex" t p = None →
     attributes <$> elements (removeTabindex t q) !! t = Some (attributes el)).
Proof.
  intros Hh Hp Hq Hel q.
  pose proof (lookup_after_click link p href sel t t Hh Hp Hq) as Ht.
  rewrite Hel in Ht. cbn [fmap option_fmap option_map] in Ht.
  cbv beta zeta in Ht. rewrite (bool_decide_eq_true_2 (t = t)) in Ht by done.
  fold q in Ht.
  set (y := if bool_decide (t = link)
            then class_add "active" (navCleared el) else navCleared el) in Ht.
  assert (attributes y = attributes el) as Hy
    by apply attributes_after_click.
  assert (elements (removeTabindex t q) !! t
          = Some (removeAttribute "tabindex" (setAttribute "tabindex" "-1" y)))
    as Hr by (by apply lookup_update_eq).
  split_and!.
  - unfold attr. rewrite Ht. apply getAttribute_set_eq.
  - subst q. by rewrite (onNavLinkClick_found _ link p href sel t).
  - unfold attr. rewrite Hr. apply Assoc_get_remove_eq.
  - intros a Ha. unfold attr. rewrite Hr, Hel. cbn [mbind option_bind].
    unfold getAttribute, removeAttribute, setAttribute. cbn [attributes
      set_attributes]. rewrite Assoc_get_remove_ne by done.
    rewrite Assoc_get_set_ne by done. by rewrite Hy.
  - intros Hnone. rewrite Hr. cbn [fmap option_fmap option_map].
    unfold removeAttribute, setAttribute. cbn [attributes set_attributes].
    rewrite Hy. f_equal. apply Assoc_remove_set.
    unfold attr in Hnone. by rewrite Hel in Hnone.
Qed.

Lemma onNavLinkClick_found_active link p href sel t :
  link ∈ qsa nav_link_sel p →
  attr "href" link p = Some href →
  parseSelector ("#" +:+ substring1 href) = Some sel →
  qs sel p = Some t →
  qsa active_nav_links_sel (onNavLinkClick parseSelector link p).1 = [link].
Proof.
  intros (el & Hel & Hnav)%elem_of_qsa Hh Hp Hq.
  rewrite matches_nav_link in Hnav.
  apply singleton_of_NoDup; [apply NoDup_qsa|].
  intros x. rewrite elem_of_qsa.
  rewrite (lookup_after_click link p href sel t x Hh Hp Hq).
  assert (∀ (y : element) (b : bool), matches active_nav_links_sel
                   (if b then setAttribute "tabindex" "-1" y else y)
                 = matches active_nav_links_sel y) as Hset.
  { intros y []; [apply matches_active_nav_setAttribute|done]. }
  split.
  - intros (e' & (e0 & He0 & ->)%fmap_Some & Hm). cbv zeta in Hm.
    rewrite Hset in Hm. case_bool_decide; [done|].
    by rewrite navCleared_not_active in Hm.
  - intros ->. rewrite Hel. eexists; split; [reflexivity|]. cbv zeta.
    rewrite Hset, (bool_decide_eq_true_2 (link = link)) by done.
    rewrite matches_active_nav_links, class_contains_add_eq.
    rewrite class_contains_add_ne by apply nav_link_ne_active.
    by rewrite navCleared_nav_link, Hnav.
Qed.

Lemma onNavLinkClick_keeps_parents link p :
  keeps parentNode p (onNavLinkClick parseSelector link p).1.
Proof.
  unfold onNavLinkClick.
  destruct (attr "href" link (record PreventDefault p)); [|done].
  destruct (parseSelector _); [|done].
  destruct (qs _ _) as [t|]; [|done]. cbn [fst].
  set (p0 := record PreventDefault p).
  eapply keeps_trans; [apply (keeps_forEach_update parentNode
                                (qsa nav_link_sel p0)
                                (class_remove "active") p0); done|].
  eapply keeps_trans;
    [apply (keeps_update parentNode link (class_add "active"))|].
  { intros x. unfold class_add. by destruct (class_contains "active" x). }
  by apply (keeps_update parentNode t (setAttribute "tabindex" "-1")
              (record (ScrollIntoView t) _)).
Qed.

(** X10: a click on a nav link inside the list whose target exists, handled
    by the listener of the link, then of the list, then of the document,
    closes the navigation and leaves the clicked link as the only active nav
    link. *)
Theorem nav_link_click_closes_and_marks toggle list link e p href sel t :
  qs nav_toggle_sel p = Some toggle →
  qs nav_list_sel p = Some list →
  link ∈ qsa nav_link_sel p →
  target e = link →
  contains list link p = true →
  attr "href" link p = Some href →
  parseSelector ("#" +:+ substring1 href) = Some sel →
  qs sel p = Some t →
  let q := onOutsideClick toggle list e
             (onListClick toggle list e
                (handle parseSelector (NavLinkClick link) e p).1) in
  hasClass "open" list q = false
  ∧ attr "aria-expanded" toggle q = Some "false"
  ∧ qsa active_nav_links_sel q = [link]
  ∧ q = closeNav toggle list (onNavLinkClick parseSelector link p).1.
Proof.
  intros Ht Hl Hlink He Hin Hh Hp Hq. cbn [handle].
  set (q1 := (onNavLinkClick parseSelector link p).1).
  assert (keeps linkShape p q1) as Hk1 by apply onNavLinkClick_keeps.
  assert (keeps parentNode p q1) as Hp1 by apply onNavLinkClick_keeps_parents.
  assert (onListClick toggle list e q1 = closeNav toggle list q1) as Hlist.
  { unfold onListClick. rewrite He.
    assert (link ∈ qsa nav_link_sel q1) as (x & Hx & Hm)%elem_of_qsa
      by by rewrite (keeps_nav_links p q1).
    rewrite matches_nav_link in Hm.
    by rewrite (hasClass_lookup _ _ _ x Hx), Hm. }
  rewrite Hlist.
  assert (onOutsideClick toggle list e (closeNav toggle list q1)
          = closeNav toggle list q1) as Hout.
  { unfold onOutsideClick. rewrite He.
    rewrite (contains_keeps p (closeNav toggle list q1) list link)
      by (eapply keeps_trans; [exact Hp1|apply closeNav_keeps_parents]).
    by rewrite Hin, andb_false_r. }
  rewrite Hout. cbv zeta. split_and!.
  - apply closeNav_closed.
  - destruct (qs_Some _ _ _ Ht) as (et & Het & _).
    destruct (keeps_is_Some linkShape p q1 toggle Hk1 (mk_is_Some _ _ Het))
      as [et' Het'].
    by apply (closeNav_aria toggle list q1 et').
  - rewrite (keeps_active_links q1) by apply closeNav_keeps.
    by apply (onNavLinkClick_found_active link p href sel t).
  - done.
Qed.

End NavLinkClick.

(** * What the routines leave alone *)

Section Frames.

Implicit Types (p q : page) (e : element).

Lemma matches_simple_selShape e e' s :
  selShape e = selShape e' → matches_simple e s = matches_simple e' s.
Proof.
  intros [= Ht Hc Ha]. destruct s; simpl;
    unfold class_contains, getAttribute; by rewrite ?Ht, ?Hc, ?Ha.
Qed.

Lemma matches_selShape sel e e' :
  selShape e = selShape e' → matches sel e = matches sel e'.
Proof.
  intros H. unfold matches. induction sel as [|c sel IH]; [done|].
  simpl. rewrite IH. f_equal.
  induction c as [|s c IHc]; [done|]. simpl.
  by rewrite IHc, (matches_simple_selShape e e' s H).
Qed.

(** Every query gives the same nodes as long as tags, classes and attributes
    are the same. *)
Lemma qsa_selShape sel p q : keeps selShape p q → qsa sel q = qsa sel p.
Proof.
  intros H. unfold qsa. apply select_from_fmap_ext.
  apply list_eq. intros i. rewrite !list_lookup_fmap.
  pose proof (keeps_lookup selShape p q i H) as Hi.
  destruct (elements q !! i) as [x|], (elements p !! i) as [y|];
    cbn [fmap option_fmap option_map] in *; try done.
  f_equal. apply matches_selShape. congruence.
Qed.

Lemma qs_selShape sel p q : keeps selShape p q → qs sel q = qs sel p.
Proof. intros H. unfold qs. by rewrite (qsa_selShape sel p q). Qed.

(** The element operations and what they leave alone. *)
Lemma untouched_compose {A} (g : element → A) f1 f2 :
  untouched g f1 → untouched g f2 → untouched g (λ e, f1 (f2 e)).
Proof. intros H1 H2 e. by rewrite H1, H2. Qed.




Lemma untouched_harden {A} (g : element → A) :
  (∀ v, untouched g (setAttribute "rel" v)) → untouched g harden.
Proof. intros H e. unfold harden. destruct (negb _); [apply H|done]. Qed.

Lemma ariaShape_class_add c : c ≠ "open" → untouched ariaShape (class_add c).
Proof.
  intros Hc e. unfold ariaShape.
  by rewrite class_contains_add_ne, getAttribute_class_add.
Qed.

Lemma ariaShape_class_remove c :
  c ≠ "open" → untouched ariaShape (class_remove c).
Proof. intros Hc e. unfold ariaShape. by rewrite class_contains_remove_ne. Qed.

Lemma ariaShape_setAttribute a v :
  a ≠ "aria-expanded" → untouched ariaShape (setAttribute a v).
Proof. intros Ha e. unfold ariaShape. by rewrite getAttribute_set_ne. Qed.

Lemma ariaShape_removeAttribute a :
  a ≠ "aria-expanded" → untouched ariaShape (removeAttribute a).
Proof.
  intros Ha e. unfold ariaShape. f_equal. by apply Assoc_get_remove_ne.
Qed.

(** The routines: what holds of every one of their element operations holds
    of them. *)
Lemma keeps_untouched_update {A} (g : element → A) n f p :
  untouched g f → keeps g p (update n f p).
Proof. apply keeps_update. Qed.



Lemma setActiveSection_frame {A} (g : element → A) links sectionId p :
  untouched g (class_remove "active") →
  untouched g (class_add "active") →
  keeps g p (setActiveSection links sectionId p).
Proof.
  intros H1 H2. unfold setActiveSection, clearActiveStates.
  set (p1 := forEach links _ p).
  assert (keeps g p p1) as Hp1 by by apply keeps_forEach_update.
  destruct (qs _ p1); [|done].
  eapply keeps_trans; [exact Hp1|]. by apply keeps_update.
Qed.

Lemma revealCallback_frame {A} (g : element → A) entries p :
  untouched g reveal → keeps g p (revealCallback entries p).
Proof.
  intros H. unfold revealCallback. revert p.
  induction entries as [|en entries IH]; intros p; [done|]. simpl.
  eapply keeps_trans; [|apply IH].
  unfold revealStep. destruct (isIntersecting en); [|done].
  change (keeps g p (update (entryTarget en) reveal p)).
  by apply keeps_update.
Qed.

Lemma setYear_frame {A} (g : element → A) year p :
  untouched g (set_textContent year) → keeps g p (setYear year p).
Proof.
  intros H. unfold setYear. destruct (qs _ _); [by apply keeps_update|done].
Qed.

Lemma quickReveal_frame {A} (g : element → A) p :
  untouched g showNow → untouched g hide → keeps g p (quickReveal p).
Proof.
  intros H1 H2. unfold quickReveal. destruct (negb _).
  - by apply keeps_forEach_update.
  - apply keeps_trans with (forEach (qsa reveal_items_sel p)
                              (λ el, update el hide) p).
    + by apply keeps_forEach_update.
    + apply keeps_elements. apply forEach_observe.
Qed.

Lemma secureExternalLinks_frame {A} (g : element → A) p :
  untouched g harden → keeps g p (secureExternalLinks p).
Proof. intros H. by apply keeps_forEach_update. Qed.

Lemma enhanceAccessibility_frame {A} (g : element → A) p :
  untouched g (setAttribute "tabindex" "0") →
  keeps g p (enhanceAccessibility p).1.
Proof.
  intros H. unfold enhanceAccessibility. cbn [fst].
  by apply keeps_forEach_update.
Qed.

Lemma revealObserved_forEach_update ns f p :
  revealObserved (forEach ns (λ n, update n f) p) = revealObserved p.
Proof. by rewrite forEach_update_elements. Qed.


End Frames.

(** * What [init] leaves *)

Section Init.

Implicit Types (p q : page) (e : element).

Lemma sections_selShape p q : keeps selShape p q → sections q = sections p.
Proof.
  intros H. unfold sections. generalize sectionIds.
  intros ids. induction ids as [|id ids IH]; [done|].
  cbn [omap list_omap]. by rewrite (qs_selShape _ p q), IH.
Qed.

Lemma setYear_keeps_selShape year p : keeps selShape p (setYear year p).
Proof. by apply setYear_frame. Qed.

Lemma hasIntersectionObserver_setYear year p :
  hasIntersectionObserver (setYear year p) = hasIntersectionObserver p.
Proof. unfold setYear. by destruct (qs _ _). Qed.

Lemma setupActiveLinkObserver_setYear year p :
  setupActiveLinkObserver (setYear year p) = setupActiveLinkObserver p.
Proof.
  unfold setupActiveLinkObserver.
  rewrite (sections_selShape p), (qsa_selShape _ p),
    hasIntersectionObserver_setYear; (done || apply setYear_keeps_selShape).
Qed.

Lemma setupNavToggle_setYear year p :
  setupNavToggle (setYear year p) = setupNavToggle p.
Proof.
  unfold setupNavToggle.
  rewrite (qs_selShape nav_toggle_sel p), (qs_selShape nav_list_sel p)
    by apply setYear_keeps_selShape.
  done.
Qed.

(** X11: [init] can only fail with a [ReferenceError]; it does so exactly
    when the browser has no [IntersectionObserver] while the page has a
    section and a link to observe.  The year has then been written and the
    listeners of the navigation toggle are installed, and nothing else has
    run. *)
Theorem init_fails_only_without_observer year p :
  ((init year p).2 = Normal ∨ (init year p).2 = Throw ReferenceError)
  ∧ ((init year p).2 = Throw ReferenceError
     ↔ hasIntersectionObserver p = false
       ∧ sections p ≠ [] ∧ qsa hash_links_sel p ≠ [])
  ∧ ((init year p).2 = Throw ReferenceError →
     ((init year p).1).1 = setYear year p
     ∧ listeners ((init year p).1).2 = setupNavToggle p
     ∧ scrollSpy ((init year p).1).2 = None).
Proof.
  unfold init. rewrite setupActiveLinkObserver_setYear, setupNavToggle_setYear.
  unfold setupActiveLinkObserver.
  destruct (enhanceAccessibility _) as [p' acc].
  destruct (bool_decide (sections p = [])) eqn:Hs;
    [|destruct (bool_decide (qsa hash_links_sel p = [])) eqn:Hl;
      [|destruct (hasIntersectionObserver p) eqn:Hio]]; cbn [orb snd fst].
  - apply bool_decide_eq_true in Hs. split_and!; [by left| |done].
    split; [done|]. by intros (_ & ? & _).
  - apply bool_decide_eq_true in Hl. split_and!; [by left| |done].
    split; [done|]. by intros (_ & _ & ?).
  - split_and!; [by left| |done]. split; [done|]. by intros (? & _).
  - apply bool_decide_eq_false in Hs, Hl. split_and!; [by right|done|done].
Qed.


Lemma matches_reveal_items e :
  matches reveal_items_sel e
  = matches reveal_items_sel (mkElement "" None (classList e) [] [] "").
Proof. reflexivity. Qed.






(** The routines [init] runs, one after the other. *)
Lemma init_normal year p p1 inst :
  init year p = (p1, inst, Normal) →
  let py := setYear year p in
  let ps := secureExternalLinks (quickReveal py) in
  p1 = (enhanceAccessibility ps).1
  ∧ listeners inst = setupNavToggle py ++ (enhanceAccessibility ps).2.
Proof.
  unfold init. destruct (setupActiveLinkObserver _) as [spy [|x]]; [|done].
  destruct (enhanceAccessibility _) as [p' acc]. by intros [= <- <-].
Qed.



End Init.

(** * What holds at every point after [init] *)

Section Always.

Variable parseSelector : string → option selector.

Implicit Types (p q : page) (e : event) (inst : installed).

Lemma onNavLinkClick_frame {A} (g : element → A) link p :
  untouched g (class_remove "active") →
  untouched g (class_add "active") →
  untouched g (setAttribute "tabindex" "-1") →
  keeps g p (onNavLinkClick parseSelector link p).1.
Proof.
  intros H1 H2 H3. unfold onNavLinkClick.
  destruct (attr "href" link (record PreventDefault p)); [|done].
  destruct (parseSelector _); [|done].
  destruct (qs _ _) as [t|]; [|done]. cbn [fst].
  set (p0 := record PreventDefault p).
  eapply keeps_trans;
    [by apply (keeps_forEach_update g (qsa nav_link_sel p0)
                 (class_remove "active") p0)|].
  eapply keeps_trans; [by apply (keeps_update g link (class_add "active"))|].
  by apply (keeps_update g t (setAttribute "tabindex" "-1")
              (record (ScrollIntoView t) _)).
Qed.







(** The navigation state of a node is read off [ariaShape]. *)
Lemma ariaShape_reads p q n :
  keeps ariaShape p q →
  hasClass "open" n q = hasClass "open" n p
  ∧ attr "aria-expanded" n q = attr "aria-expanded" n p.
Proof.
  intros H%(keeps_lookup ariaShape p q n). unfold hasClass, attr, ariaShape in *.
  destruct (elements q !! n), (elements p !! n); simplify_eq/=; done.
Qed.

Lemma aria_matches_keeps toggle list p q :
  keeps ariaShape p q →
  aria_matches_open toggle list p → aria_matches_open toggle list q.
Proof.
  intros H. unfold aria_matches_open.
  destruct (ariaShape_reads p q toggle H) as [_ ->].
  by destruct (ariaShape_reads p q list H) as [-> _].
Qed.

Lemma handle_keeps_links l e p :
  keeps linkShape p (handle parseSelector l e p).1.
Proof.
  destruct l as [t li|t li|t li|t li|s|link|c];
    try (apply keeps_link_of_mark, handle_keeps_marks; intros ?; discriminate).
  apply onNavLinkClick_keeps.
Qed.

Lemma step_keeps_links inst p q :
  step parseSelector inst p q → keeps linkShape p q.
Proof.
  intros [r e Hr|links secs entries v Hs|links secs v Hs|entries|n].
  - apply handle_keeps_links.
  - destruct (observerCallback_sets secs entries v p links) as [i ->].
    apply setActiveSection_keeps.
  - destruct (scrollFrame_sets secs v p links) as [i ->].
    apply setActiveSection_keeps.
  - auto with keeps.
  - auto with keeps.
Qed.

(** The listeners of the navigation [init] installs hold the toggle and the
    list of the page. *)
Lemma init_nav_listeners year p0 p1 inst toggle list r :
  init year p0 = (p1, inst, Normal) →
  qs nav_toggle_sel p0 = Some toggle →
  qs nav_list_sel p0 = Some list →
  r ∈ listeners inst →
  match callback r with
  | ToggleClick t l | ListClick t l | OutsideClick t l | EscapeKeydown t l =>
      t = toggle ∧ l = list
  | _ => True
  end.
Proof.
  intros [_ Hl]%init_normal Ht Hli. rewrite Hl, setupNavToggle_setYear.
  unfold setupNavToggle, enhanceAccessibility. rewrite Ht, Hli. cbn [snd].
  rewrite !elem_of_app, !elem_of_cons.
  intros [[->|[->|[->|[->|Hr]]]]|[Hr|[Hr|Hr]]]; try done.
  - by apply elem_of_nil in Hr.
  - destruct (qs skip_link_sel _); [|by apply elem_of_nil in Hr].
    by apply list_elem_of_singleton in Hr as ->.
  - by apply list_elem_of_fmap in Hr as (l & -> & _).
  - by apply list_elem_of_fmap in Hr as (l & -> & _).
Qed.

Lemma aria_step year p0 p1 inst toggle list p q :
  init year p0 = (p1, inst, Normal) →
  qs nav_toggle_sel p0 = Some toggle →
  qs nav_list_sel p0 = Some list →
  is_Some (elements p !! toggle) → is_Some (elements p !! list) →
  step parseSelector inst p q →
  aria_matches_open toggle list p → aria_matches_open toggle list q.
Proof.
  intros Hinit Ht Hl [elt Helt] [ell Hell] Hstep Hinv.
  pose proof (closeNav_matches toggle list p elt ell Helt Hell) as Hclose.
  destruct Hstep as [r e Hr|links secs entries v Hs|links secs v Hs|entries|n].
  - pose proof (init_nav_listeners year p0 p1 inst toggle list r
                  Hinit Ht Hl Hr) as Hnav.
    destruct (callback r) as [t li|t li|t li|t li|s|link|c];
      cbn [handle fst].
    + destruct Hnav as [-> ->].
      by apply (onToggleClick_matches toggle list p elt ell).
    + destruct Hnav as [-> ->].
      unfold onListClick. by destruct (hasClass _ _ _).
    + destruct Hnav as [-> ->].
      unfold onOutsideClick. by destruct (_ && _).
    + destruct Hnav as [-> ->].
      unfold onEscapeKeydown. by destruct (_ && _).
    + apply (aria_matches_keeps toggle list p); [|done].
      apply keeps_elements, onSkipLinkClick_elements.
    + apply (aria_matches_keeps toggle list p); [|done].
      apply onNavLinkClick_frame;
        [by apply ariaShape_class_remove|by apply ariaShape_class_add
        |by apply ariaShape_setAttribute].
    + unfold onCardKeydown. by destruct (_ || _).
  - destruct (observerCallback_sets secs entries v p links) as [i ->].
    apply (aria_matches_keeps toggle list p); [|done].
    apply setActiveSection_frame;
      [by apply ariaShape_class_remove|by apply ariaShape_class_add].
  - destruct (scrollFrame_sets secs v p links) as [i ->].
    apply (aria_matches_keeps toggle list p); [|done].
    apply setActiveSection_frame;
      [by apply ariaShape_class_remove|by apply ariaShape_class_add].
  - apply (aria_matches_keeps toggle list p); [|done].
    by apply revealCallback_frame.
  - apply (aria_matches_keeps toggle list p); [|done].
    apply keeps_update. by apply ariaShape_removeAttribute.
Qed.

Lemma init_keeps_aria year p0 p1 inst :
  init year p0 = (p1, inst, Normal) → keeps ariaShape p0 p1.
Proof.
  intros [-> _]%init_normal.
  eapply keeps_trans; [by apply setYear_frame|].
  eapply keeps_trans; [by apply quickReveal_frame|].
  eapply keeps_trans.
  - apply secureExternalLinks_frame, untouched_harden.
    intros v. by apply ariaShape_setAttribute.
  - apply enhanceAccessibility_frame. by apply ariaShape_setAttribute.
Qed.

(** X14: when the markup has [aria-expanded] of the toggle in step with the
    class [open] of the list, it is so at every point after [init],
    whichever listeners and callbacks have run. *)
Theorem aria_in_step_at_every_point year p0 p1 inst toggle list p :
  init year p0 = (p1, inst, Normal) →
  qs nav_toggle_sel p0 = Some toggle →
  qs nav_list_sel p0 = Some list →
  aria_matches_open toggle list p0 →
  rtc (step parseSelector inst) p1 p →
  aria_matches_open toggle list p.
Proof.
  intros Hinit Ht Hl Hinv Hrun.
  pose proof (init_installed year p0 p1 inst Hinit) as [Hk01 _].
  apply keeps_link_of_mark in Hk01.
  pose proof (qs_Some _ _ _ Ht) as (elt & Helt & _).
  pose proof (qs_Some _ _ _ Hl) as (ell & Hell & _).
  assert (keeps linkShape p0 p ∧ aria_matches_open toggle list p) as [_ H];
    [|exact H].
  revert p Hrun. apply rtc_ind_r.
  - split; [done|].
    apply (aria_matches_keeps toggle list p0); [|done].
    by apply (init_keeps_aria year p0 p1 inst).
  - intros p q _ Hstep [Hk IH]. split.
    + eapply keeps_trans; [exact Hk|]. by apply (step_keeps_links inst).
    + apply (aria_step year p0 p1 inst toggle list p q); try done.
      * apply (keeps_is_Some linkShape p0 p toggle Hk). eauto.
      * apply (keeps_is_Some linkShape p0 p list Hk). eauto.
Qed.

End Always.

(** * The observer of [quickReveal] and the toggle, over time *)

Section OverTime.

Implicit Types (p q : page) (toggle list : node).

Lemma revealObserved_forEach_observe ns p :
  NoDup (revealObserved p ++ ns) →
  revealObserved (forEach ns observe p) = revealObserved p ++ ns.
Proof.
  unfold forEach. revert p. induction ns as [|m ns IH]; intros p Hnd.
  - by rewrite app_nil_r.
  - simpl. assert (observe m p = set_revealObserved (revealObserved p ++ [m]) p)
      as ->.
    { unfold observe. rewrite bool_decide_eq_false_2; [done|].
      apply NoDup_app in Hnd as (_ & Hnd & _). intros Hin.
      apply (Hnd m Hin). by left. }
    rewrite IH; cbn [revealObserved set_revealObserved].
    + by rewrite <- app_assoc.
    + by rewrite <- app_assoc.
Qed.

Lemma revealObserved_revealStep p en :
  revealObserved (revealStep p en)
  = filter (λ n, reveals n [en] = false) (revealObserved p).
Proof.
  unfold revealStep, reveals. cbn [existsb].
  destruct (isIntersecting en); cbn [andb orb].
  - cbn [revealObserved unobserve set_revealObserved update set_elements].
    apply list_filter_iff. intros n. rewrite orb_false_r.
    rewrite bool_decide_eq_false. split; congruence.
  - symmetry. induction (revealObserved p) as [|x l IH]; [done|].
    rewrite filter_cons, decide_True by done. by rewrite IH.
Qed.

(** X15: [quickReveal] makes a fresh observer observe exactly the reveal
    items, in document order; the callback of the observer never adds a
    target and removes exactly the targets of the intersecting entries of
    its batch. *)
Theorem observer_targets_only_shrink p entries q :
  (hasIntersectionObserver p = true → revealObserved p = [] →
   revealObserved (quickReveal p) = qsa reveal_items_sel p)
  ∧ revealObserved (revealCallback entries q)
    = filter (λ n, reveals n entries = false) (revealObserved q).
Proof.
  split.
  - intros Hio Hfresh. unfold quickReveal. rewrite Hio. cbn [negb].
    rewrite revealObserved_forEach_observe;
      rewrite revealObserved_forEach_update, Hfresh; [done|].
    apply NoDup_qsa.
  - revert q. induction entries as [|en entries IH]; intros q.
    + simpl. symmetry. induction (revealObserved q) as [|x l IHl]; [done|].
      rewrite filter_cons, decide_True by done. by rewrite IHl.
    + rewrite revealCallback_cons, IH, revealObserved_revealStep.
      rewrite list_filter_filter. apply list_filter_iff. intros n.
      unfold reveals. cbn [existsb]. rewrite orb_false_r, orb_false_iff.
      tauto.
Qed.

Lemma Assoc_set_set k v w l :
  Assoc.set k v (Assoc.set k w l) = Assoc.set k v l.
Proof.
  induction l as [|[k0 v0] r IH]; simpl.
  - by rewrite decide_True.
  - destruct (decide (k0 = k)) as [->|Hne]; simpl.
    + by rewrite decide_True.
    + rewrite decide_False by done. by rewrite IH.
Qed.

Lemma class_toggle_present c (x : element) :
  class_contains c x = true → class_toggle c x = class_remove c x.
Proof. intros H. unfold class_toggle. by rewrite H. Qed.

Lemma class_toggle_absent c (x : element) :
  class_contains c x = false → class_toggle c x = class_add c x.
Proof. intros H. unfold class_toggle. by rewrite H. Qed.

Lemma class_toggle_thrice c (x : element) :
  class_toggle c (class_toggle c (class_toggle c x)) = class_toggle c x.
Proof.
  destruct (class_contains c x) eqn:Hc.
  - rewrite (class_toggle_present c x Hc).
    rewrite (class_toggle_absent c (class_remove c x))
      by apply class_contains_remove_eq.
    rewrite class_toggle_present by apply class_contains_add_eq.
    apply class_remove_add_absent, class_contains_remove_eq.
  - rewrite (class_toggle_absent c x Hc).
    rewrite (class_toggle_present c (class_add c x))
      by apply class_contains_add_eq.
    rewrite class_remove_add_absent by done.
    by apply class_toggle_absent.
Qed.

Lemma class_toggle_setAttribute c a v (x : element) :
  class_toggle c (setAttribute a v x) = setAttribute a v (class_toggle c x).
Proof.
  unfold class_toggle, class_add.
  change (class_contains c (setAttribute a v x)) with (class_contains c x).
  by destruct (class_contains c x).
Qed.

Lemma setAttribute_twice a v w (x : element) :
  setAttribute a v (setAttribute a w x) = setAttribute a v x.
Proof.
  unfold setAttribute, set_attributes.
  cbn [attributes tagName parentNode classList style textContent].
  by rewrite Assoc_set_set.
Qed.

(** A click on the toggle as one pass over the elements. *)
Lemma onToggleClick_elements toggle list p :
  onToggleClick toggle list p
  = set_elements
      (alter (setAttribute "aria-expanded"
                (string_of_bool (negb (hasClass "open" list p)))) toggle
         (alter (class_toggle "open") list (elements p))) p.
Proof. done. Qed.

Lemma hasClass_after_toggle toggle list p :
  hasClass "open" list (onToggleClick toggle list p)
  = if decide (is_Some (elements p !! list))
    then negb (hasClass "open" list p) else false.
Proof.
  case_decide as Hl.
  - destruct Hl as [x Hx]. by apply (onToggleClick_open toggle list p x).
  - unfold onToggleClick, hasClass. rewrite !lookup_update.
    destruct (elements p !! list) eqn:E; [by destruct Hl|].
    by repeat case_decide.
Qed.

(** X16: from the first click on, the toggle alternates between two pages:
    a third click leaves the page the first click left. *)
Theorem toggle_click_has_period_two toggle list p :
  onToggleClick toggle list
    (onToggleClick toggle list (onToggleClick toggle list p))
  = onToggleClick toggle list p.
Proof.
  set (p1 := onToggleClick toggle list p).
  set (p2 := onToggleClick toggle list p1).
  assert (hasClass "open" list p2 = hasClass "open" list p) as Ho.
  { pose proof (hasClass_after_toggle toggle list p) as H1. fold p1 in H1.
    pose proof (hasClass_after_toggle toggle list p1) as H2. fold p2 in H2.
    rewrite H2, H1. clear H1 H2.
    assert (is_Some (elements p1 !! list) ↔ is_Some (elements p !! list))
      as Hiff.
    { unfold p1, onToggleClick. rewrite !lookup_update.
      repeat case_decide; rewrite ?fmap_is_Some; done. }
    destruct (decide (is_Some (elements p !! list))) as [Hs|Hn].
    - rewrite decide_True by tauto. apply negb_involutive.
    - rewrite decide_False by tauto. unfold hasClass.
      destruct (elements p !! list); [|done]. exfalso; eauto. }
  rewrite (onToggleClick_elements toggle list p2), Ho.
  unfold p2. rewrite (onToggleClick_elements toggle list p1).
  unfold p1. rewrite (onToggleClick_elements toggle list p).
  cbn [elements set_elements]. unfold set_elements.
  cbn [elements hasIntersectionObserver revealObserved calls]. f_equal.
  generalize (string_of_bool (negb (hasClass "open" list p))).
  generalize (string_of_bool
                (negb (hasClass "open" list
                         (onToggleClick toggle list p)))).
  intros w v. apply list_eq. intros i.
  destruct (decide (i = toggle)) as [->|Hit],
           (decide (toggle = list)) as [Htl|Htl].
  - rewrite <- Htl. rewrite !list_lookup_alter_eq.
    destruct (elements p !! toggle) as [x|]; [simpl|done]. f_equal.
    rewrite !class_toggle_setAttribute, !setAttribute_twice.
    by rewrite class_toggle_thrice.
  - rewrite !list_lookup_alter_eq.
    rewrite !(list_lookup_alter_ne _ _ list toggle) by congruence.
    rewrite !list_lookup_alter_eq.
    rewrite !(list_lookup_alter_ne _ _ list toggle) by congruence.
    rewrite !list_lookup_alter_eq.
    rewrite !(list_lookup_alter_ne _ _ list toggle) by congruence.
    destruct (elements p !! toggle) as [x|]; [simpl|done]. f_equal.
    by rewrite !setAttribute_twice.
  - rewrite <- Htl. by rewrite !list_lookup_alter_ne by congruence.
  - rewrite !(list_lookup_alter_ne _ _ toggle i) by congruence.
    destruct (decide (i = list)) as [->|Hil].
    + rewrite !list_lookup_alter_eq.
      rewrite !(list_lookup_alter_ne _ _ toggle list) by congruence.
      rewrite !list_lookup_alter_eq.
      rewrite !(list_lookup_alter_ne _ _ toggle list) by congruence.
      rewrite !list_lookup_alter_eq.
      destruct (elements p !! list) as [x|]; [simpl|done]. f_equal.
      apply class_toggle_thrice.
    + by rewrite !list_lookup_alter_ne by congruence.
Qed.

End OverTime.

(** * The further statements at work on [samplePage] *)

Lemma observer_follows_most_visible_witness :
  filter (λ e, isIntersecting e)
    [mkEntry 5 true (1 # 4); mkEntry 6 true (3 # 4)] ≠ []
  ∧ (∃ pre m post,
       filter (λ e, isIntersecting e)
         [mkEntry 5 true (1 # 4); mkEntry 6 true (3 # 4)]
       = pre ++ m :: post
       ∧ (∀ x, x ∈ pre → (intersectionRatio x < intersectionRatio m)%Q)
       ∧ (∀ x, x ∈ post → (intersectionRatio x <= intersectionRatio m)%Q)
       ∧ observerCallback [2; 3] [5; 6]
           [mkEntry 5 true (1 # 4); mkEntry 6 true (3 # 4)] flatLayout
           samplePage
         = setActiveSection [2; 3] (idOf (entryTarget m) samplePage)
             samplePage)%nat
  ∧ observerCallback [2; 3] [5; 6] [mkEntry 5 false 0] flatLayout samplePage
    = setActiveSection [2; 3] (currentSection [5; 6] flatLayout samplePage)
        samplePage.
Proof.
  assert (filter (λ e, isIntersecting e)
            [mkEntry 5 true (1 # 4); mkEntry 6 true (3 # 4)] ≠ []) as Hne
    by (vm_compute; discriminate).
  split; [exact Hne|]. split.
  - exact (proj2 (observer_follows_most_visible [2; 3] [5; 6]
                    [mkEntry 5 true (1 # 4); mkEntry 6 true (3 # 4)]
                    flatLayout samplePage)%nat Hne).
  - exact (proj1 (observer_follows_most_visible [2; 3] [5; 6]
                    [mkEntry 5 false 0] flatLayout samplePage)%nat eq_refl).
Defined.

Lemma scroll_spy_passes_known_ids_witness :
  (5 ∈ sections samplePage)%nat
  ∧ idOf 5 samplePage ∈ sectionIds
  ∧ ∃ id, id ∈ sectionIds
          ∧ observerCallback [2; 3]%nat (sections samplePage)
              [mkEntry 6 true 1] flatLayout samplePage
            = setActiveSection [2; 3]%nat id samplePage.
Proof.
  assert (5 ∈ sections samplePage)%nat as Hin
    by (vm_compute; constructor).
  destruct (scroll_spy_passes_known_ids samplePage flatLayout [2; 3]%nat)
    as (H1 & _ & _ & H4).
  split; [exact Hin|]. split; [exact (proj1 (H1 5%nat Hin))|].
  apply H4. intros en Hen. apply list_elem_of_singleton in Hen.
  rewrite Hen. vm_compute. do 2 constructor.
Defined.

Lemma scroll_names_nearest_section_witness :
  (5 ∈ [5; 6])%nat
  ∧ eligible sampleLayout samplePage 5 = true
  ∧ ∃ s, (s ∈ [5; 6])%nat
         ∧ eligible sampleLayout samplePage s = true
         ∧ nearestSection [5; 6]%nat sampleLayout samplePage
           = idOf s samplePage
         ∧ ∀ s', (s' ∈ [5; 6])%nat →
                 eligible sampleLayout samplePage s' = true →
                 (distanceTo sampleLayout samplePage s
                  <= distanceTo sampleLayout samplePage s')%Q.
Proof.
  assert (5 ∈ [5; 6])%nat as Hin by constructor.
  split; [exact Hin|]. split; [reflexivity|].
  exact (proj2 (scroll_names_nearest_section [5; 6]%nat sampleLayout
                  samplePage) 5%nat Hin eq_refl).
Defined.

Lemma outside_click_spares_inside_clicks_witness :
  contains 1 2 samplePage = true
  ∧ onOutsideClick 0 1 (mkEvent 2 "") (onListClick 0 1 (mkEvent 2 "") samplePage)
    = onListClick 0 1 (mkEvent 2 "") samplePage
  ∧ onOutsideClick 0 1 (mkEvent 0 "") (onToggleClick 0 1 samplePage)
    = onToggleClick 0 1 samplePage.
Proof.
  split; [reflexivity|]. split.
  - exact (proj2 (proj2 (outside_click_spares_inside_clicks 0 1
                           (mkEvent 2 "") samplePage (or_intror eq_refl)))).
  - exact (proj1 (proj2 (outside_click_spares_inside_clicks 0 1
                           (mkEvent 0 "") samplePage (or_introl eq_refl)))).
Defined.

Lemma nav_link_click_borrows_tabindex_witness :
  attr "href" 2 samplePage = Some "#about"
  ∧ qs [[Id "about"]] samplePage = Some 5%nat
  ∧ attr "tabindex" 5 (onNavLinkClick identEngine 2 samplePage).1 = Some "-1"
  ∧ attr "tabindex" 5
      (removeTabindex 5 (onNavLinkClick identEngine 2 samplePage).1) = None
  ∧ attributes
      <$> elements (removeTabindex 5
                      (onNavLinkClick identEngine 2 samplePage).1) !! 5%nat
    = Some [("id", "about")].
Proof.
  split; [reflexivity|]. split; [reflexivity|].
  destruct (nav_link_click_borrows_tabindex identEngine 2 samplePage "#about"
              [[Id "about"]] 5
              (elem "section" None ["section"] [("id", "about")])
              eq_refl eq_refl eq_refl eq_refl) as (H1 & _ & H3 & _ & H5).
  split; [exact H1|]. split; [exact H3 | exact (H5 eq_refl)].
Defined.

Lemma nav_link_click_closes_and_marks_witness :
  (2 ∈ qsa nav_link_sel samplePage)%nat
  ∧ contains 1 2 samplePage = true
  ∧ hasClass "open" 1
      (onOutsideClick 0 1 (mkEvent 2 "")
         (onListClick 0 1 (mkEvent 2 "")
            (handle identEngine (NavLinkClick 2) (mkEvent 2 "")
               (onToggleClick 0 1 samplePage)).1)) = false
  ∧ qsa active_nav_links_sel
      (onOutsideClick 0 1 (mkEvent 2 "")
         (onListClick 0 1 (mkEvent 2 "")
            (handle identEngine (NavLinkClick 2) (mkEvent 2 "")
               (onToggleClick 0 1 samplePage)).1)) = [2%nat].
Proof.
  assert (2 ∈ qsa nav_link_sel samplePage)%nat as Hin
    by (vm_compute; constructor).
  assert (2 ∈ qsa nav_link_sel (onToggleClick 0 1 samplePage))%nat as Hin'
    by (vm_compute; constructor).
  split; [exact Hin|]. split; [reflexivity|].
  destruct (nav_link_click_closes_and_marks identEngine 0 1 2 (mkEvent 2 "")
              (onToggleClick 0 1 samplePage) "#about" [[Id "about"]] 5
              eq_refl eq_refl Hin' eq_refl eq_refl eq_refl eq_refl eq_refl)
    as (H1 & _ & H3 & _).
  split; [exact H1 | exact H3].
Defined.

Lemma init_fails_only_without_observer_witness :
  hasIntersectionObserver noObserverPage = false
  ∧ sections noObserverPage ≠ []
  ∧ qsa hash_links_sel noObserverPage ≠ []
  ∧ (init "2026" noObserverPage).2 = Throw ReferenceError
  ∧ ((init "2026" noObserverPage).1).1 = setYear "2026" noObserverPage
  ∧ listeners ((init "2026" noObserverPage).1).2 = setupNavToggle noObserverPage.
Proof.
  assert (sections noObserverPage ≠ []) as Hs by (vm_compute; discriminate).
  assert (qsa hash_links_sel noObserverPage ≠ []) as Hl
    by (vm_compute; discriminate).
  destruct (init_fails_only_without_observer "2026" noObserverPage)
    as (_ & H2 & H3).
  pose proof (proj2 H2 (conj eq_refl (conj Hs Hl))) as Hthrow.
  split; [reflexivity|]. split; [exact Hs|]. split; [exact Hl|].
  split; [exact Hthrow|].
  destruct (H3 Hthrow) as (H4 & H5 & _). split; [exact H4 | exact H5].
Defined.



Lemma aria_in_step_at_every_point_witness :
  (init "2026" samplePage).2 = Normal
  ∧ aria_matches_open 0 1 samplePage
  ∧ aria_matches_open 0 1
      (handle identEngine (EscapeKeydown 0 1) (mkEvent 7 "Escape")
         (handle identEngine (ToggleClick 0 1) (mkEvent 0 "")
            ((init "2026" samplePage).1).1).1).1.
Proof.
  assert (init "2026" samplePage
          = (((init "2026" samplePage).1).1, ((init "2026" samplePage).1).2,
             Normal)) as Hinit by (vm_compute; reflexivity).
  assert (aria_matches_open 0 1 samplePage) as Hinv.
  { split; intros H; vm_compute in H; discriminate H. }
  split; [vm_compute; reflexivity|]. split; [exact Hinv|].
  apply (aria_in_step_at_every_point identEngine "2026" samplePage _ _ 0 1 _
           Hinit eq_refl eq_refl Hinv).
  eapply rtc_l.
  { apply (step_listener identEngine _ _
             (mkRegistration (Element 0) "click" (ToggleClick 0 1))
             (mkEvent 0 "")).
    vm_compute. constructor. }
  eapply rtc_l; [|apply rtc_refl].
  apply (step_listener identEngine _ _
           (mkRegistration Document "keydown" (EscapeKeydown 0 1))
           (mkEvent 7 "Escape")).
  vm_compute. do 4 constructor.
Defined.

Lemma observer_targets_only_shrink_witness :
  hasIntersectionObserver samplePage = true
  ∧ revealObserved samplePage = []
  ∧ revealObserved (quickReveal samplePage) = qsa reveal_items_sel samplePage.
Proof.
  split; [reflexivity|]. split; [reflexivity|].
  exact (proj1 (observer_targets_only_shrink samplePage [] samplePage)
           eq_refl eq_refl).
Defined.
